(** * Verification of the solana-poker program (dealing protocol and betting state machine)

    A shallow embedding of the Anchor handlers of
    [programs/solana-poker/src]: [submit_cards], [apply_offset_batch],
    [generate_offset], [deal_cards], [post_blinds], [player_action] and
    [advance_stage], over a state/error monad in which writes to accounts
    stay visible when a handler returns an error (so that the order of
    validation and mutation in the source is observable), and a
    transaction layer [tx] giving the ledger's semantics (a failed
    instruction leaves every account as it was).

    Machine integers are [Z]; arithmetic that Rust checks in the release
    profile of an Anchor workspace ([overflow-checks = true]) raises
    [Panic]; encrypted values ([Euint128]) are their 128-bit handles;
    calls into the Inco Lightning program are oracles passed to the
    handlers and may fail with [CpiError]. *)

From Stdlib Require Import ZArith Bool Lia.
From stdpp Require Import base list gmap.

Open Scope Z_scope.

(** ** Enumerations (state/mod.rs, error.rs) *)

Inductive GameStage :=
  | Waiting | PreFlop | Flop | Turn | River | Showdown | Finished.

Definition GameStage_eqb (a b : GameStage) : bool :=
  match a, b with
  | Waiting, Waiting | PreFlop, PreFlop | Flop, Flop | Turn, Turn
  | River, River | Showdown, Showdown | Finished, Finished => true
  | _, _ => false
  end.

Lemma GameStage_eqb_eq a b : GameStage_eqb a b = true <-> a = b.
Proof. destruct a, b; simpl; split; congruence. Qed.

(** [GameStage::next] *)
Definition next (s : GameStage) : option GameStage :=
  match s with
  | Waiting => Some PreFlop
  | PreFlop => Some Flop
  | Flop => Some Turn
  | Turn => Some River
  | River => Some Showdown
  | Showdown => Some Finished
  | Finished => None
  end.

Inductive BetAction := Fold | Check | Call | Raise | AllIn.

Inductive PokerError :=
  | InvalidBuyIn | TableFull | NotEnoughPlayers | GameInProgress | NoActiveGame
  | NotYourTurn | InsufficientChips | InvalidBetAmount | PlayerFolded
  | PlayerAlreadyActed | BettingNotComplete | InvalidGameStage | PlayerNotAtTable
  | NotAdmin | CardsNotSubmitted | CardsAlreadySubmitted | CardsAlreadyDealt
  | InvalidCardCount | SeatTaken | PlayerAlreadySeated | CannotLeaveDuringGame
  | GameNotFinished | CannotCheck | RaiseTooSmall | WinnerNotDetermined
  | OffsetAlreadyApplied | OffsetNotApplied | InvalidSeatIndex
  | BlindsAlreadyPosted | InvalidBatchIndex | BatchOutOfOrder
  | PositionOffsetAlreadySet.

(** The outcome of a failed instruction: a typed [PokerError] from a
    [require!], a failed Anchor account check (missing or already
    initialised account), a Rust panic (checked arithmetic, shift amount,
    division by zero, index out of bounds) or a failed CPI. *)
Inductive Error :=
  | Poker (e : PokerError)
  | AccountError
  | Panic
  | CpiError.

(** Errors raised by a precondition check (as opposed to a runtime fault). *)
Definition validation_error (e : Error) : Prop :=
  match e with Poker _ | AccountError => True | _ => False end.

(** ** Accounts *)

Module Game.
Record PokerGame := mkPokerGame {
  table : Z;
  game_id : Z;
  stage : GameStage;
  pot : Z;
  current_bet : Z;
  dealer_position : Z;
  action_on : Z;
  players_remaining : Z;
  players_acted : Z;
  player_count : Z;
  folded_mask : Z;
  all_in_mask : Z;
  blinds_posted : Z;
  last_raiser : Z;
  last_raise_amount : Z;
  card_pool : list Z;
  encrypted_offset : Z;
  offset_batch : Z;
  cards_offset_mask : Z;
  position_offset : Z;
  cards_submitted : bool;
  offset_applied : bool;
  cards_dealt_count : Z;
  community_revealed : Z;
  winner_seat : option Z;
  bump : Z
}.

Definition set_table (v : Z) (g : PokerGame) : PokerGame :=
  mkPokerGame v (game_id g) (stage g) (pot g) (current_bet g) (dealer_position g) (action_on g) (players_remaining g) (players_acted g) (player_count g) (folded_mask g) (all_in_mask g) (blinds_posted g) (last_raiser g) (last_raise_amount g) (card_pool g) (encrypted_offset g) (offset_batch g) (cards_offset_mask g) (position_offset g) (cards_submitted g) (offset_applied g) (cards_dealt_count g) (community_revealed g) (winner_seat g) (bump g).
Definition set_game_id (v : Z) (g : PokerGame) : PokerGame :=
  mkPokerGame (table g) v (stage g) (pot g) (current_bet g) (dealer_position g) (action_on g) (players_remaining g) (players_acted g) (player_count g) (folded_mask g) (all_in_mask g) (blinds_posted g) (last_raiser g) (last_raise_amount g) (card_pool g) (encrypted_offset g) (offset_batch g) (cards_offset_mask g) (position_offset g) (cards_submitted g) (offset_applied g) (cards_dealt_count g) (community_revealed g) (winner_seat g) (bump g).
Definition set_stage (v : GameStage) (g : PokerGame) : PokerGame :=
  mkPokerGame (table g) (game_id g) v (pot g) (current_bet g) (dealer_position g) (action_on g) (players_remaining g) (players_acted g) (player_count g) (folded_mask g) (all_in_mask g) (blinds_posted g) (last_raiser g) (last_raise_amount g) (card_pool g) (encrypted_offset g) (offset_batch g) (cards_offset_mask g) (position_offset g) (cards_submitted g) (offset_applied g) (cards_dealt_count g) (community_revealed g) (winner_seat g) (bump g).
Definition set_pot (v : Z) (g : PokerGame) : PokerGame :=
  mkPokerGame (table g) (game_id g) (stage g) v (current_bet g) (dealer_position g) (action_on g) (players_remaining g) (players_acted g) (player_count g) (folded_mask g) (all_in_mask g) (blinds_posted g) (last_raiser g) (last_raise_amount g) (card_pool g) (encrypted_offset g) (offset_batch g) (cards_offset_mask g) (position_offset g) (cards_submitted g) (offset_applied g) (cards_dealt_count g) (community_revealed g) (winner_seat g) (bump g).
Definition set_current_bet (v : Z) (g : PokerGame) : PokerGame :=
  mkPokerGame (table g) (game_id g) (stage g) (pot g) v (dealer_position g) (action_on g) (players_remaining g) (players_acted g) (player_count g) (folded_mask g) (all_in_mask g) (blinds_posted g) (last_raiser g) (last_raise_amount g) (card_pool g) (encrypted_offset g) (offset_batch g) (cards_offset_mask g) (position_offset g) (cards_submitted g) (offset_applied g) (cards_dealt_count g) (community_revealed g) (winner_seat g) (bump g).
Definition set_dealer_position (v : Z) (g : PokerGame) : PokerGame :=
  mkPokerGame (table g) (game_id g) (stage g) (pot g) (current_bet g) v (action_on g) (players_remaining g) (players_acted g) (player_count g) (folded_mask g) (all_in_mask g) (blinds_posted g) (last_raiser g) (last_raise_amount g) (card_pool g) (encrypted_offset g) (offset_batch g) (cards_offset_mask g) (position_offset g) (cards_submitted g) (offset_applied g) (cards_dealt_count g) (community_revealed g) (winner_seat g) (bump g).
Definition set_action_on (v : Z) (g : PokerGame) : PokerGame :=
  mkPokerGame (table g) (game_id g) (stage g) (pot g) (current_bet g) (dealer_position g) v (players_remaining g) (players_acted g) (player_count g) (folded_mask g) (all_in_mask g) (blinds_posted g) (last_raiser g) (last_raise_amount g) (card_pool g) (encrypted_offset g) (offset_batch g) (cards_offset_mask g) (position_offset g) (cards_submitted g) (offset_applied g) (cards_dealt_count g) (community_revealed g) (winner_seat g) (bump g).
Definition set_players_remaining (v : Z) (g : PokerGame) : PokerGame :=
  mkPokerGame (table g) (game_id g) (stage g) (pot g) (current_bet g) (dealer_position g) (action_on g) v (players_acted g) (player_count g) (folded_mask g) (all_in_mask g) (blinds_posted g) (last_raiser g) (last_raise_amount g) (card_pool g) (encrypted_offset g) (offset_batch g) (cards_offset_mask g) (position_offset g) (cards_submitted g) (offset_applied g) (cards_dealt_count g) (community_revealed g) (winner_seat g) (bump g).
Definition set_players_acted (v : Z) (g : PokerGame) : PokerGame :=
  mkPokerGame (table g) (game_id g) (stage g) (pot g) (current_bet g) (dealer_position g) (action_on g) (players_remaining g) v (player_count g) (folded_mask g) (all_in_mask g) (blinds_posted g) (last_raiser g) (last_raise_amount g) (card_pool g) (encrypted_offset g) (offset_batch g) (cards_offset_mask g) (position_offset g) (cards_submitted g) (offset_applied g) (cards_dealt_count g) (community_revealed g) (winner_seat g) (bump g).
Definition set_player_count (v : Z) (g : PokerGame) : PokerGame :=
  mkPokerGame (table g) (game_id g) (stage g) (pot g) (current_bet g) (dealer_position g) (action_on g) (players_remaining g) (players_acted g) v (folded_mask g) (all_in_mask g) (blinds_posted g) (last_raiser g) (last_raise_amount g) (card_pool g) (encrypted_offset g) (offset_batch g) (cards_offset_mask g) (position_offset g) (cards_submitted g) (offset_applied g) (cards_dealt_count g) (community_revealed g) (winner_seat g) (bump g).
Definition set_folded_mask (v : Z) (g : PokerGame) : PokerGame :=
  mkPokerGame (table g) (game_id g) (stage g) (pot g) (current_bet g) (dealer_position g) (action_on g) (players_remaining g) (players_acted g) (player_count g) v (all_in_mask g) (blinds_posted g) (last_raiser g) (last_raise_amount g) (card_pool g) (encrypted_offset g) (offset_batch g) (cards_offset_mask g) (position_offset g) (cards_submitted g) (offset_applied g) (cards_dealt_count g) (community_revealed g) (winner_seat g) (bump g).
Definition set_all_in_mask (v : Z) (g : PokerGame) : PokerGame :=
  mkPokerGame (table g) (game_id g) (stage g) (pot g) (current_bet g) (dealer_position g) (action_on g) (players_remaining g) (players_acted g) (player_count g) (folded_mask g) v (blinds_posted g) (last_raiser g) (last_raise_amount g) (card_pool g) (encrypted_offset g) (offset_batch g) (cards_offset_mask g) (position_offset g) (cards_submitted g) (offset_applied g) (cards_dealt_count g) (community_revealed g) (winner_seat g) (bump g).
Definition set_blinds_posted (v : Z) (g : PokerGame) : PokerGame :=
  mkPokerGame (table g) (game_id g) (stage g) (pot g) (current_bet g) (dealer_position g) (action_on g) (players_remaining g) (players_acted g) (player_count g) (folded_mask g) (all_in_mask g) v (last_raiser g) (last_raise_amount g) (card_pool g) (encrypted_offset g) (offset_batch g) (cards_offset_mask g) (position_offset g) (cards_submitted g) (offset_applied g) (cards_dealt_count g) (community_revealed g) (winner_seat g) (bump g).
Definition set_last_raiser (v : Z) (g : PokerGame) : PokerGame :=
  mkPokerGame (table g) (game_id g) (stage g) (pot g) (current_bet g) (dealer_position g) (action_on g) (players_remaining g) (players_acted g) (player_count g) (folded_mask g) (all_in_mask g) (blinds_posted g) v (last_raise_amount g) (card_pool g) (encrypted_offset g) (offset_batch g) (cards_offset_mask g) (position_offset g) (cards_submitted g) (offset_applied g) (cards_dealt_count g) (community_revealed g) (winner_seat g) (bump g).
Definition set_last_raise_amount (v : Z) (g : PokerGame) : PokerGame :=
  mkPokerGame (table g) (game_id g) (stage g) (pot g) (current_bet g) (dealer_position g) (action_on g) (players_remaining g) (players_acted g) (player_count g) (folded_mask g) (all_in_mask g) (blinds_posted g) (last_raiser g) v (card_pool g) (encrypted_offset g) (offset_batch g) (cards_offset_mask g) (position_offset g) (cards_submitted g) (offset_applied g) (cards_dealt_count g) (community_revealed g) (winner_seat g) (bump g).
Definition set_card_pool (v : list Z) (g : PokerGame) : PokerGame :=
  mkPokerGame (table g) (game_id g) (stage g) (pot g) (current_bet g) (dealer_position g) (action_on g) (players_remaining g) (players_acted g) (player_count g) (folded_mask g) (all_in_mask g) (blinds_posted g) (last_raiser g) (last_raise_amount g) v (encrypted_offset g) (offset_batch g) (cards_offset_mask g) (position_offset g) (cards_submitted g) (offset_applied g) (cards_dealt_count g) (community_revealed g) (winner_seat g) (bump g).
Definition set_encrypted_offset (v : Z) (g : PokerGame) : PokerGame :=
  mkPokerGame (table g) (game_id g) (stage g) (pot g) (current_bet g) (dealer_position g) (action_on g) (players_remaining g) (players_acted g) (player_count g) (folded_mask g) (all_in_mask g) (blinds_posted g) (last_raiser g) (last_raise_amount g) (card_pool g) v (offset_batch g) (cards_offset_mask g) (position_offset g) (cards_submitted g) (offset_applied g) (cards_dealt_count g) (community_revealed g) (winner_seat g) (bump g).
Definition set_offset_batch (v : Z) (g : PokerGame) : PokerGame :=
  mkPokerGame (table g) (game_id g) (stage g) (pot g) (current_bet g) (dealer_position g) (action_on g) (players_remaining g) (players_acted g) (player_count g) (folded_mask g) (all_in_mask g) (blinds_posted g) (last_raiser g) (last_raise_amount g) (card_pool g) (encrypted_offset g) v (cards_offset_mask g) (position_offset g) (cards_submitted g) (offset_applied g) (cards_dealt_count g) (community_revealed g) (winner_seat g) (bump g).
Definition set_cards_offset_mask (v : Z) (g : PokerGame) : PokerGame :=
  mkPokerGame (table g) (game_id g) (stage g) (pot g) (current_bet g) (dealer_position g) (action_on g) (players_remaining g) (players_acted g) (player_count g) (folded_mask g) (all_in_mask g) (blinds_posted g) (last_raiser g) (last_raise_amount g) (card_pool g) (encrypted_offset g) (offset_batch g) v (position_offset g) (cards_submitted g) (offset_applied g) (cards_dealt_count g) (community_revealed g) (winner_seat g) (bump g).
Definition set_position_offset (v : Z) (g : PokerGame) : PokerGame :=
  mkPokerGame (table g) (game_id g) (stage g) (pot g) (current_bet g) (dealer_position g) (action_on g) (players_remaining g) (players_acted g) (player_count g) (folded_mask g) (all_in_mask g) (blinds_posted g) (last_raiser g) (last_raise_amount g) (card_pool g) (encrypted_offset g) (offset_batch g) (cards_offset_mask g) v (cards_submitted g) (offset_applied g) (cards_dealt_count g) (community_revealed g) (winner_seat g) (bump g).
Definition set_cards_submitted (v : bool) (g : PokerGame) : PokerGame :=
  mkPokerGame (table g) (game_id g) (stage g) (pot g) (current_bet g) (dealer_position g) (action_on g) (players_remaining g) (players_acted g) (player_count g) (folded_mask g) (all_in_mask g) (blinds_posted g) (last_raiser g) (last_raise_amount g) (card_pool g) (encrypted_offset g) (offset_batch g) (cards_offset_mask g) (position_offset g) v (offset_applied g) (cards_dealt_count g) (community_revealed g) (winner_seat g) (bump g).
Definition set_offset_applied (v : bool) (g : PokerGame) : PokerGame :=
  mkPokerGame (table g) (game_id g) (stage g) (pot g) (current_bet g) (dealer_position g) (action_on g) (players_remaining g) (players_acted g) (player_count g) (folded_mask g) (all_in_mask g) (blinds_posted g) (last_raiser g) (last_raise_amount g) (card_pool g) (encrypted_offset g) (offset_batch g) (cards_offset_mask g) (position_offset g) (cards_submitted g) v (cards_dealt_count g) (community_revealed g) (winner_seat g) (bump g).
Definition set_cards_dealt_count (v : Z) (g : PokerGame) : PokerGame :=
  mkPokerGame (table g) (game_id g) (stage g) (pot g) (current_bet g) (dealer_position g) (action_on g) (players_remaining g) (players_acted g) (player_count g) (folded_mask g) (all_in_mask g) (blinds_posted g) (last_raiser g) (last_raise_amount g) (card_pool g) (encrypted_offset g) (offset_batch g) (cards_offset_mask g) (position_offset g) (cards_submitted g) (offset_applied g) v (community_revealed g) (winner_seat g) (bump g).
Definition set_community_revealed (v : Z) (g : PokerGame) : PokerGame :=
  mkPokerGame (table g) (game_id g) (stage g) (pot g) (current_bet g) (dealer_position g) (action_on g) (players_remaining g) (players_acted g) (player_count g) (folded_mask g) (all_in_mask g) (blinds_posted g) (last_raiser g) (last_raise_amount g) (card_pool g) (encrypted_offset g) (offset_batch g) (cards_offset_mask g) (position_offset g) (cards_submitted g) (offset_applied g) (cards_dealt_count g) v (winner_seat g) (bump g).
Definition set_winner_seat (v : option Z) (g : PokerGame) : PokerGame :=
  mkPokerGame (table g) (game_id g) (stage g) (pot g) (current_bet g) (dealer_position g) (action_on g) (players_remaining g) (players_acted g) (player_count g) (folded_mask g) (all_in_mask g) (blinds_posted g) (last_raiser g) (last_raise_amount g) (card_pool g) (encrypted_offset g) (offset_batch g) (cards_offset_mask g) (position_offset g) (cards_submitted g) (offset_applied g) (cards_dealt_count g) (community_revealed g) v (bump g).
Definition set_bump (v : Z) (g : PokerGame) : PokerGame :=
  mkPokerGame (table g) (game_id g) (stage g) (pot g) (current_bet g) (dealer_position g) (action_on g) (players_remaining g) (players_acted g) (player_count g) (folded_mask g) (all_in_mask g) (blinds_posted g) (last_raiser g) (last_raise_amount g) (card_pool g) (encrypted_offset g) (offset_batch g) (cards_offset_mask g) (position_offset g) (cards_submitted g) (offset_applied g) (cards_dealt_count g) (community_revealed g) (winner_seat g) v.
End Game.

(** [PlayerSeat]: the declaration (state/player_seat.rs) is not among the
    sources; the fields and their order are those written by
    [deal_cards] and listed in the layout comment of [advance_stage]. *)
Module Seat.
Record PlayerSeat := mkPlayerSeat {
  game : Z;
  player : Z;
  seat_index : Z;
  chips : Z;
  hole_card_1 : Z;
  hole_card_2 : Z;
  current_bet : Z;
  total_bet : Z;
  is_folded : bool;
  is_all_in : bool;
  has_acted : bool;
  hand_rank : Z;
  bump : Z
}.

Definition set_game (v : Z) (s : PlayerSeat) : PlayerSeat :=
  mkPlayerSeat v (player s) (seat_index s) (chips s) (hole_card_1 s) (hole_card_2 s) (current_bet s) (total_bet s) (is_folded s) (is_all_in s) (has_acted s) (hand_rank s) (bump s).
Definition set_player (v : Z) (s : PlayerSeat) : PlayerSeat :=
  mkPlayerSeat (game s) v (seat_index s) (chips s) (hole_card_1 s) (hole_card_2 s) (current_bet s) (total_bet s) (is_folded s) (is_all_in s) (has_acted s) (hand_rank s) (bump s).
Definition set_seat_index (v : Z) (s : PlayerSeat) : PlayerSeat :=
  mkPlayerSeat (game s) (player s) v (chips s) (hole_card_1 s) (hole_card_2 s) (current_bet s) (total_bet s) (is_folded s) (is_all_in s) (has_acted s) (hand_rank s) (bump s).
Definition set_chips (v : Z) (s : PlayerSeat) : PlayerSeat :=
  mkPlayerSeat (game s) (player s) (seat_index s) v (hole_card_1 s) (hole_card_2 s) (current_bet s) (total_bet s) (is_folded s) (is_all_in s) (has_acted s) (hand_rank s) (bump s).
Definition set_hole_card_1 (v : Z) (s : PlayerSeat) : PlayerSeat :=
  mkPlayerSeat (game s) (player s) (seat_index s) (chips s) v (hole_card_2 s) (current_bet s) (total_bet s) (is_folded s) (is_all_in s) (has_acted s) (hand_rank s) (bump s).
Definition set_hole_card_2 (v : Z) (s : PlayerSeat) : PlayerSeat :=
  mkPlayerSeat (game s) (player s) (seat_index s) (chips s) (hole_card_1 s) v (current_bet s) (total_bet s) (is_folded s) (is_all_in s) (has_acted s) (hand_rank s) (bump s).
Definition set_current_bet (v : Z) (s : PlayerSeat) : PlayerSeat :=
  mkPlayerSeat (game s) (player s) (seat_index s) (chips s) (hole_card_1 s) (hole_card_2 s) v (total_bet s) (is_folded s) (is_all_in s) (has_acted s) (hand_rank s) (bump s).
Definition set_total_bet (v : Z) (s : PlayerSeat) : PlayerSeat :=
  mkPlayerSeat (game s) (player s) (seat_index s) (chips s) (hole_card_1 s) (hole_card_2 s) (current_bet s) v (is_folded s) (is_all_in s) (has_acted s) (hand_rank s) (bump s).
Definition set_is_folded (v : bool) (s : PlayerSeat) : PlayerSeat :=
  mkPlayerSeat (game s) (player s) (seat_index s) (chips s) (hole_card_1 s) (hole_card_2 s) (current_bet s) (total_bet s) v (is_all_in s) (has_acted s) (hand_rank s) (bump s).
Definition set_is_all_in (v : bool) (s : PlayerSeat) : PlayerSeat :=
  mkPlayerSeat (game s) (player s) (seat_index s) (chips s) (hole_card_1 s) (hole_card_2 s) (current_bet s) (total_bet s) (is_folded s) v (has_acted s) (hand_rank s) (bump s).
Definition set_has_acted (v : bool) (s : PlayerSeat) : PlayerSeat :=
  mkPlayerSeat (game s) (player s) (seat_index s) (chips s) (hole_card_1 s) (hole_card_2 s) (current_bet s) (total_bet s) (is_folded s) (is_all_in s) v (hand_rank s) (bump s).
Definition set_hand_rank (v : Z) (s : PlayerSeat) : PlayerSeat :=
  mkPlayerSeat (game s) (player s) (seat_index s) (chips s) (hole_card_1 s) (hole_card_2 s) (current_bet s) (total_bet s) (is_folded s) (is_all_in s) (has_acted s) v (bump s).
Definition set_bump (v : Z) (s : PlayerSeat) : PlayerSeat :=
  mkPlayerSeat (game s) (player s) (seat_index s) (chips s) (hole_card_1 s) (hole_card_2 s) (current_bet s) (total_bet s) (is_folded s) (is_all_in s) (has_acted s) (hand_rank s) v.
End Seat.

Abbreviation PokerGame := Game.PokerGame.
Abbreviation PlayerSeat := Seat.PlayerSeat.

(** The accounts an instruction works on: the game (with its address,
    used as [player_seat.game]) and the seat PDAs of that game, keyed by
    the [seat_index] in their seeds [b"seat", game, seat_index]. *)
Record World := mkWorld {
  w_game_key : Z;
  w_game : PokerGame;
  w_seats : gmap Z PlayerSeat
}.

(** The fields of [PokerTable] the handlers read (state/poker_table.rs is
    not among the sources). *)
Record PokerTable := mkPokerTable {
  buy_in_min : Z;
  buy_in_max : Z;
  small_blind : Z
}.

(** ** The instruction monad

    A handler works on in-memory copies of its accounts; a write stays
    visible when the handler later returns an error, so [M] keeps the
    state in both outcomes. *)

Definition M (S A : Type) : Type := S -> S * (Error + A).

Definition ret {S A} (a : A) : M S A := fun s => (s, inr a).

Definition bind {S A B} (m : M S A) (k : A -> M S B) : M S B :=
  fun s => match m s with
           | (s', inl e) => (s', inl e)
           | (s', inr a) => k a s'
           end.

Definition throw {S A} (e : Error) : M S A := fun s => (s, inl e).
Definition get {S} : M S S := fun s => (s, inr s).
Definition put {S} (s : S) : M S unit := fun _ => (s, inr tt).
Definition modify {S} (f : S -> S) : M S unit := fun s => (f s, inr tt).

Declare Scope ix_scope.
Delimit Scope ix_scope with ix.
Notation "x <-- m ;; k" := (bind m (fun x => k))
  (at level 63, m at next level, right associativity) : ix_scope.
Notation "m ;;; k" := (bind m (fun _ => k))
  (at level 63, right associativity) : ix_scope.
Open Scope ix_scope.

(** [require!(cond, err)] *)
Definition require {S} (b : bool) (e : PokerError) : M S unit :=
  if b then ret tt else throw (Poker e).

(** [x?] on a CPI result. *)
Definition cpi {S A} (r : option A) : M S A :=
  match r with Some a => ret a | None => throw CpiError end.

(** Checked unsigned arithmetic on [bits]-bit integers. *)
Definition checked_add {S} (bits a b : Z) : M S Z :=
  if a + b <? 2 ^ bits then ret (a + b) else throw Panic.
Definition checked_sub {S} (a b : Z) : M S Z :=
  if b <=? a then ret (a - b) else throw Panic.
Definition checked_mul {S} (bits a b : Z) : M S Z :=
  if a * b <? 2 ^ bits then ret (a * b) else throw Panic.
Definition checked_rem {S} (a b : Z) : M S Z :=
  if b =? 0 then throw Panic else ret (a mod b).
(** [a << n] on a [bits]-bit integer: panics when [n >= bits], drops the
    bits shifted out otherwise. *)
Definition checked_shl {S} (bits a n : Z) : M S Z :=
  if n <? bits then ret (Z.land (Z.shiftl a n) (Z.ones bits)) else throw Panic.
Definition checked_shr {S} (bits a n : Z) : M S Z :=
  if n <? bits then ret (Z.shiftr a n) else throw Panic.

(** [u64::saturating_sub] *)
Definition saturating_sub (a b : Z) : Z := Z.max 0 (a - b).

(** [v[i]] *)
Definition index {S} (l : list Z) (i : Z) : M S Z :=
  match l !! Z.to_nat i with
  | Some x => if 0 <=? i then ret x else throw Panic
  | None => throw Panic
  end.

(** [v[i] = x] *)
Definition set_index {S} (l : list Z) (i x : Z) : M S (list Z) :=
  if (0 <=? i) && (i <? Z.of_nat (length l)) then ret (<[Z.to_nat i := x]> l)
  else throw Panic.

(** Accessors of the world. *)
Definition game_of : M World PokerGame := fun w => (w, inr (w_game w)).
Definition update_game (f : PokerGame -> PokerGame) : M World unit :=
  modify (fun w => mkWorld (w_game_key w) (f (w_game w)) (w_seats w)).
Definition seat_at (k : Z) : M World PlayerSeat :=
  fun w => match w_seats w !! k with
           | Some s => (w, inr s)
           | None => (w, inl AccountError)
           end.
Definition write_seat (k : Z) (s : PlayerSeat) : M World unit :=
  modify (fun w => mkWorld (w_game_key w) (w_game w) (<[k := s]> (w_seats w))).

(** The ledger: an instruction that fails leaves every account unchanged. *)
Definition tx {S} (m : M S unit) (s : S) : Error + S :=
  match m s with
  | (s', inr _) => inr s'
  | (_, inl e) => inl e
  end.

(** The accounts after submitting an instruction, whether or not it succeeded. *)
Definition after {S} (r : Error + S) (s : S) : S :=
  match r with inr s' => s' | inl _ => s end.

(** ** [impl PokerGame] (state/poker_game.rs) *)

Section GameMethods.
Context {S : Type}.

(** [(self.folded_mask >> seat) & 1 == 1] *)
Definition is_folded (g : PokerGame) (seat : Z) : M S bool :=
  x <-- checked_shr 8 (Game.folded_mask g) seat ;;
  ret (Z.land x 1 =? 1).

Definition is_all_in (g : PokerGame) (seat : Z) : M S bool :=
  x <-- checked_shr 8 (Game.all_in_mask g) seat ;;
  ret (Z.land x 1 =? 1).

(** [!self.is_folded(seat) && !self.is_all_in(seat)] *)
Definition is_active (g : PokerGame) (seat : Z) : M S bool :=
  f <-- is_folded g seat ;;
  if f then ret false
  else a <-- is_all_in g seat ;; ret (negb a).

Fixpoint count_active (g : PokerGame) (n : nat) (i count : Z) : M S Z :=
  match n with
  | O => ret count
  | Datatypes.S n' =>
      a <-- is_active g i ;;
      count <-- (if a then checked_add 8 count 1 else ret count) ;;
      count_active g n' (i + 1) count
  end.

(** [for i in 0..self.player_count { if self.is_active(i) { count += 1 } }] *)
Definition active_player_count (g : PokerGame) : M S Z :=
  count_active g (Z.to_nat (Game.player_count g)) 0 0.

Definition is_card_offset (g : PokerGame) (card_index : Z) : M S bool :=
  x <-- checked_shr 16 (Game.cards_offset_mask g) card_index ;;
  ret (Z.land x 1 =? 1).

(** [self.cards_offset_mask |= 1 << card_index]; returns the new mask. *)
Definition mark_card_offset (g : PokerGame) (card_index : Z) : M S Z :=
  b <-- checked_shl 16 1 card_index ;;
  ret (Z.lor (Game.cards_offset_mask g) b).

Definition all_cards_offset (g : PokerGame) : bool :=
  Game.cards_offset_mask g =? 32767.

(** The bounded scan shared by [advance_action], [post_blinds] and
    [advance_stage]:
    [while checked < player_count { if game.is_active(pos) { break; }
     pos = (pos + 1) % player_count; checked += 1; }] *)
Fixpoint scan_active (g : PokerGame) (fuel : nat) (pos : Z) : M S Z :=
  match fuel with
  | O => ret pos
  | Datatypes.S n =>
      a <-- is_active g pos ;;
      if a then ret pos
      else p1 <-- checked_add 8 pos 1 ;;
           p <-- checked_rem p1 (Game.player_count g) ;;
           scan_active g n p
  end.

End GameMethods.

(** ** submit_cards.rs *)

Definition SUBMIT_BATCH_SIZE : Z := 5.

(** [for i in 0..SUBMIT_BATCH_SIZE { game.card_pool[start_idx + i] =
    new_euint128(.., encrypted_cards[i].clone(), input_type)?; }] *)
Fixpoint store_cards (new_euint128 : list Z -> Z -> option Z)
    (encrypted_cards : list (list Z)) (input_type start_idx i : Z) (n : nat)
    : M World unit :=
  match n with
  | O => ret tt
  | Datatypes.S n' =>
      ct <-- (match encrypted_cards !! Z.to_nat i with
              | Some c => ret c | None => throw Panic end) ;;
      handle <-- cpi (new_euint128 ct input_type) ;;
      g <-- game_of ;;
      pool <-- set_index (Game.card_pool g) (start_idx + i) handle ;;
      update_game (Game.set_card_pool pool) ;;;
      store_cards new_euint128 encrypted_cards input_type start_idx (i + 1) n'
  end.

Definition submit_cards (new_euint128 : list Z -> Z -> option Z)
    (batch_index : Z) (c0 c1 c2 c3 c4 : list Z) (input_type : Z)
    : M World unit :=
  g <-- game_of ;;
  (* account constraint [game.stage == GameStage::Waiting] *)
  require (GameStage_eqb (Game.stage g) Waiting) InvalidGameStage ;;;
  require (GameStage_eqb (Game.stage g) Waiting) InvalidGameStage ;;;
  require (batch_index <? 3) InvalidBatchIndex ;;;
  batch_bit <-- checked_shl 8 1 batch_index ;;
  let submitted_mask := Game.community_revealed g in
  require (Z.land submitted_mask batch_bit =? 0) CardsAlreadySubmitted ;;;
  let encrypted_cards := [c0; c1; c2; c3; c4] in
  let start_idx := batch_index * SUBMIT_BATCH_SIZE in
  store_cards new_euint128 encrypted_cards input_type start_idx 0
    (Z.to_nat SUBMIT_BATCH_SIZE) ;;;
  g <-- game_of ;;
  update_game (Game.set_community_revealed
                 (Z.lor (Game.community_revealed g) batch_bit)) ;;;
  g <-- game_of ;;
  if Game.community_revealed g =? 7 then
    update_game (Game.set_cards_submitted true) ;;;
    update_game (Game.set_community_revealed 0)
  else ret tt.

(** ** apply_offset_batch.rs *)

Definition BATCH_SIZE : Z := 5.

(** [for i in start_card..end_card { if game.is_card_offset(i) { continue; }
     game.card_pool[i] = e_add(.., game.card_pool[i], offset, 16)?;
     game.mark_card_offset(i); }] *)
Fixpoint offset_cards (e_add : Z -> Z -> option Z) (offset i : Z) (n : nat)
    : M World unit :=
  match n with
  | O => ret tt
  | Datatypes.S n' =>
      g <-- game_of ;;
      already <-- is_card_offset g i ;;
      if already then offset_cards e_add offset (i + 1) n'
      else
        old <-- index (Game.card_pool g) i ;;
        h <-- cpi (e_add old offset) ;;
        g <-- game_of ;;
        pool <-- set_index (Game.card_pool g) i h ;;
        update_game (Game.set_card_pool pool) ;;;
        g <-- game_of ;;
        mask <-- mark_card_offset g i ;;
        update_game (Game.set_cards_offset_mask mask) ;;;
        offset_cards e_add offset (i + 1) n'
  end.

(** [e_rand] is the fresh encrypted random value the CPI returns, [e_add]
    the homomorphic addition. *)
Definition apply_offset_batch (e_rand : option Z) (e_add : Z -> Z -> option Z)
    (batch_index : Z) : M World unit :=
  g <-- game_of ;;
  require (Game.cards_submitted g) CardsNotSubmitted ;;;
  require (negb (Game.offset_applied g)) OffsetAlreadyApplied ;;;
  require (GameStage_eqb (Game.stage g) Waiting) InvalidGameStage ;;;
  require (batch_index <? 3) InvalidBatchIndex ;;;
  (if batch_index =? 0 then ret tt
   else if batch_index =? 1 then require (1 <=? Game.offset_batch g) BatchOutOfOrder
   else if batch_index =? 2 then require (2 <=? Game.offset_batch g) BatchOutOfOrder
   else throw (Poker InvalidBatchIndex)) ;;;
  let start_card := batch_index * BATCH_SIZE in
  let end_card := Z.min ((batch_index + 1) * BATCH_SIZE) 15 in
  (if (batch_index =? 0) && (Game.offset_batch g =? 0) then
     r <-- cpi e_rand ;; update_game (Game.set_encrypted_offset r)
   else ret tt) ;;;
  g <-- game_of ;;
  let offset := Game.encrypted_offset g in
  offset_cards e_add offset start_card (Z.to_nat (end_card - start_card)) ;;;
  ob <-- checked_add 8 batch_index 1 ;;
  update_game (Game.set_offset_batch ob) ;;;
  g <-- game_of ;;
  if (batch_index =? 2) && all_cards_offset g then
    update_game (Game.set_offset_batch 255) ;;;
    update_game (Game.set_offset_applied true)
  else ret tt.

(** ** generate_offset.rs

    [clock_slot] is the result of [Clock::get()] ([None] when the sysvar
    cannot be read). *)
Definition generate_offset (clock_slot : option Z) : M World unit :=
  g <-- game_of ;;
  (* account constraint [game.stage == GameStage::Waiting] *)
  require (GameStage_eqb (Game.stage g) Waiting) InvalidGameStage ;;;
  require (Game.cards_submitted g) CardsNotSubmitted ;;;
  require (Game.offset_applied g) OffsetNotApplied ;;;
  require (Game.position_offset g =? 0) PositionOffsetAlreadySet ;;;
  require (GameStage_eqb (Game.stage g) Waiting) InvalidGameStage ;;;
  slot <-- cpi clock_slot ;;
  let slot_byte_0 := slot mod 256 in
  offset <-- checked_add 8 (slot_byte_0 mod 10) 1 ;;
  update_game (Game.set_position_offset offset).

(** ** deal_cards.rs

    [allow] is the Inco [allow] CPI, [n_remaining] the number of
    [remaining_accounts], [player] the key of the player account and
    [seat_bump] the PDA bump of the new seat. *)
Definition deal_cards (allow : Z -> option unit) (n_remaining : nat)
    (table : PokerTable) (player seat_bump : Z) (seat_index buy_in : Z)
    : M World unit :=
  w <-- get ;;
  (* [init] on the seat PDA fails when the account already exists *)
  (match w_seats w !! seat_index with
   | Some _ => throw AccountError | None => ret tt end) ;;;
  let g := w_game w in
  require (Game.cards_submitted g) CardsNotSubmitted ;;;
  require (Game.offset_applied g) OffsetNotApplied ;;;
  require (GameStage_eqb (Game.stage g) Waiting) InvalidGameStage ;;;
  require (seat_index <? Game.player_count g) PlayerNotAtTable ;;;
  require ((buy_in_min table <=? buy_in) && (buy_in <=? buy_in_max table))
    InvalidBuyIn ;;;
  require (Game.cards_dealt_count g <? Game.player_count g) CardsAlreadyDealt ;;;
  let offset := Game.position_offset g in
  let base_idx_1 := seat_index * 2 in
  let base_idx_2 := seat_index * 2 + 1 in
  let card_1_idx := (base_idx_1 + offset) mod 10 in
  let card_2_idx := (base_idx_2 + offset) mod 10 in
  require ((card_1_idx <? 10) && (card_2_idx <? 10)) InvalidCardCount ;;;
  card_1_handle <-- index (Game.card_pool g) card_1_idx ;;
  card_2_handle <-- index (Game.card_pool g) card_2_idx ;;
  write_seat seat_index
    (Seat.mkPlayerSeat (w_game_key w) player seat_index buy_in
       card_1_handle card_2_handle 0 0 false false false 0 seat_bump) ;;;
  g <-- game_of ;;
  dealt <-- checked_add 8 (Game.cards_dealt_count g) 1 ;;
  update_game (Game.set_cards_dealt_count dealt) ;;;
  g <-- game_of ;;
  (if Game.cards_dealt_count g =? Game.player_count g then
     update_game (Game.set_stage PreFlop)
   else ret tt) ;;;
  (if (2 <=? n_remaining)%nat then cpi (allow card_1_handle) else ret tt) ;;;
  (if (4 <=? n_remaining)%nat then cpi (allow card_2_handle) else ret tt).

(** Write the in-memory copy of a seat account and go on with it. *)
Definition save (k : Z) (s : PlayerSeat) : M World PlayerSeat :=
  write_seat k s ;;; ret s.

(** ** post_blinds.rs

    The two seat accounts are the seat PDAs [sb_key] and [bb_key]; Anchor
    deserialises each into its own copy, so when both keys coincide the
    big-blind copy is the one written last. *)
Definition post_blinds (table : PokerTable) (sb_key bb_key : Z) : M World unit :=
  w <-- get ;;
  let g := w_game w in
  sb_seat <-- seat_at sb_key ;;
  require (Seat.game sb_seat =? w_game_key w) PlayerNotAtTable ;;;
  d1 <-- checked_add 8 (Game.dealer_position g) 1 ;;
  sb_pos <-- checked_rem d1 (Game.player_count g) ;;
  require (Seat.seat_index sb_seat =? sb_pos) InvalidSeatIndex ;;;
  bb_seat <-- seat_at bb_key ;;
  require (Seat.game bb_seat =? w_game_key w) PlayerNotAtTable ;;;
  d2 <-- checked_add 8 (Game.dealer_position g) 2 ;;
  bb_pos <-- checked_rem d2 (Game.player_count g) ;;
  require (Seat.seat_index bb_seat =? bb_pos) InvalidSeatIndex ;;;
  (* handler *)
  require (GameStage_eqb (Game.stage g) PreFlop) InvalidGameStage ;;;
  require (Game.blinds_posted g =? 0) BlindsAlreadyPosted ;;;
  let small_blind := small_blind table in
  big_blind <-- checked_mul 64 small_blind 2 ;;
  (* small blind *)
  let sb_amount := Z.min small_blind (Seat.chips sb_seat) in
  chips <-- checked_sub (Seat.chips sb_seat) sb_amount ;;
  sb_seat <-- save sb_key (Seat.set_chips chips sb_seat) ;;
  sb_seat <-- save sb_key (Seat.set_current_bet sb_amount sb_seat) ;;
  sb_seat <-- save sb_key (Seat.set_total_bet sb_amount sb_seat) ;;
  g <-- game_of ;;
  pot <-- checked_add 64 (Game.pot g) sb_amount ;;
  update_game (Game.set_pot pot) ;;;
  g <-- game_of ;;
  bit <-- checked_shl 8 1 (Seat.seat_index sb_seat) ;;
  update_game (Game.set_blinds_posted (Z.lor (Game.blinds_posted g) bit)) ;;;
  (* big blind *)
  let bb_amount := Z.min big_blind (Seat.chips bb_seat) in
  chips <-- checked_sub (Seat.chips bb_seat) bb_amount ;;
  bb_seat <-- save bb_key (Seat.set_chips chips bb_seat) ;;
  bb_seat <-- save bb_key (Seat.set_current_bet bb_amount bb_seat) ;;
  bb_seat <-- save bb_key (Seat.set_total_bet bb_amount bb_seat) ;;
  g <-- game_of ;;
  pot <-- checked_add 64 (Game.pot g) bb_amount ;;
  update_game (Game.set_pot pot) ;;;
  g <-- game_of ;;
  bit <-- checked_shl 8 1 (Seat.seat_index bb_seat) ;;
  update_game (Game.set_blinds_posted (Z.lor (Game.blinds_posted g) bit)) ;;;
  (* game state *)
  update_game (Game.set_current_bet bb_amount) ;;;
  update_game (Game.set_last_raise_amount bb_amount) ;;;
  update_game (Game.set_last_raiser (Seat.seat_index bb_seat)) ;;;
  g <-- game_of ;;
  p1 <-- checked_add 8 (Seat.seat_index bb_seat) 1 ;;
  first <-- checked_rem p1 (Game.player_count g) ;;
  first_to_act <-- scan_active g (Z.to_nat (Game.player_count g)) first ;;
  update_game (Game.set_action_on first_to_act) ;;;
  sb_seat <-- save sb_key (Seat.set_has_acted false sb_seat) ;;
  bb_seat <-- save bb_key (Seat.set_has_acted false bb_seat) ;;
  update_game (Game.set_players_acted 0).

(** ** player_action.rs *)

Definition decode_action {S} (action : Z) : M S BetAction :=
  if action =? 0 then ret Fold
  else if action =? 1 then ret Check
  else if action =? 2 then ret Call
  else if action =? 3 then ret Raise
  else if action =? 4 then ret AllIn
  else throw (Poker InvalidBetAmount).

Definition do_fold (k seat_index : Z) (seat : PlayerSeat) : M World PlayerSeat :=
  seat <-- save k (Seat.set_is_folded true seat) ;;
  g <-- game_of ;;
  bit <-- checked_shl 8 1 seat_index ;;
  update_game (Game.set_folded_mask (Z.lor (Game.folded_mask g) bit)) ;;;
  g <-- game_of ;;
  r <-- checked_sub (Game.players_remaining g) 1 ;;
  update_game (Game.set_players_remaining r) ;;;
  g <-- game_of ;;
  (if Game.players_remaining g =? 1 then update_game (Game.set_stage Showdown)
   else ret tt) ;;;
  ret seat.

Definition do_check (amount_to_call : Z) (seat : PlayerSeat) : M World PlayerSeat :=
  require (amount_to_call =? 0) CannotCheck ;;;
  ret seat.

Definition do_call (k amount_to_call : Z) (seat : PlayerSeat) : M World PlayerSeat :=
  require (amount_to_call <=? Seat.chips seat) InsufficientChips ;;;
  c <-- checked_sub (Seat.chips seat) amount_to_call ;;
  seat <-- save k (Seat.set_chips c seat) ;;
  cb <-- checked_add 64 (Seat.current_bet seat) amount_to_call ;;
  seat <-- save k (Seat.set_current_bet cb seat) ;;
  tb <-- checked_add 64 (Seat.total_bet seat) amount_to_call ;;
  seat <-- save k (Seat.set_total_bet tb seat) ;;
  g <-- game_of ;;
  pot <-- checked_add 64 (Game.pot g) amount_to_call ;;
  update_game (Game.set_pot pot) ;;;
  ret seat.

Definition do_raise (k seat_index amount_to_call raise_amount : Z)
    (seat : PlayerSeat) : M World PlayerSeat :=
  g <-- game_of ;;
  let min_raise := if 0 <? Game.last_raise_amount g
                   then Game.last_raise_amount g else Game.current_bet g in
  require (min_raise <=? raise_amount) RaiseTooSmall ;;;
  total_to_call <-- checked_add 64 amount_to_call raise_amount ;;
  require (total_to_call <=? Seat.chips seat) InsufficientChips ;;;
  c <-- checked_sub (Seat.chips seat) total_to_call ;;
  seat <-- save k (Seat.set_chips c seat) ;;
  cb <-- checked_add 64 (Seat.current_bet seat) total_to_call ;;
  seat <-- save k (Seat.set_current_bet cb seat) ;;
  tb <-- checked_add 64 (Seat.total_bet seat) total_to_call ;;
  seat <-- save k (Seat.set_total_bet tb seat) ;;
  g <-- game_of ;;
  pot <-- checked_add 64 (Game.pot g) total_to_call ;;
  update_game (Game.set_pot pot) ;;;
  update_game (Game.set_current_bet (Seat.current_bet seat)) ;;;
  update_game (Game.set_last_raiser seat_index) ;;;
  update_game (Game.set_last_raise_amount raise_amount) ;;;
  update_game (Game.set_players_acted 0) ;;;
  ret seat.

Definition do_all_in (k seat_index : Z) (seat : PlayerSeat) : M World PlayerSeat :=
  let all_in_amount := Seat.chips seat in
  seat <-- save k (Seat.set_chips 0 seat) ;;
  cb <-- checked_add 64 (Seat.current_bet seat) all_in_amount ;;
  seat <-- save k (Seat.set_current_bet cb seat) ;;
  tb <-- checked_add 64 (Seat.total_bet seat) all_in_amount ;;
  seat <-- save k (Seat.set_total_bet tb seat) ;;
  seat <-- save k (Seat.set_is_all_in true seat) ;;
  g <-- game_of ;;
  bit <-- checked_shl 8 1 seat_index ;;
  update_game (Game.set_all_in_mask (Z.lor (Game.all_in_mask g) bit)) ;;;
  g <-- game_of ;;
  pot <-- checked_add 64 (Game.pot g) all_in_amount ;;
  update_game (Game.set_pot pot) ;;;
  g <-- game_of ;;
  if Game.current_bet g <? Seat.current_bet seat then
    raise_amount <-- checked_sub (Seat.current_bet seat) (Game.current_bet g) ;;
    update_game (Game.set_current_bet (Seat.current_bet seat)) ;;;
    update_game (Game.set_last_raiser seat_index) ;;;
    update_game (Game.set_last_raise_amount raise_amount) ;;;
    update_game (Game.set_players_acted 0) ;;;
    ret seat
  else ret seat.

(** [advance_action] *)
Definition advance_action : M World unit :=
  g <-- game_of ;;
  let start := Game.action_on g in
  n1 <-- checked_add 8 start 1 ;;
  nxt <-- checked_rem n1 (Game.player_count g) ;;
  nxt <-- scan_active g (Z.to_nat (Game.player_count g)) nxt ;;
  update_game (Game.set_action_on nxt) ;;;
  g <-- game_of ;;
  c <-- active_player_count g ;;
  if c =? 0 then ret tt
  else _ <-- active_player_count g ;; ret tt.

Definition betting_stage (s : GameStage) : bool :=
  negb (GameStage_eqb s Waiting) && negb (GameStage_eqb s Showdown)
  && negb (GameStage_eqb s Finished).

(** [seat_key] is the seat PDA passed as [player_seat], [player] the signer. *)
Definition player_action (seat_key player action raise_amount : Z) : M World unit :=
  w <-- get ;;
  seat <-- seat_at seat_key ;;
  require (Seat.game seat =? w_game_key w) NoActiveGame ;;;
  require (Seat.player seat =? player) PlayerNotAtTable ;;;
  act <-- decode_action action ;;
  g <-- game_of ;;
  let seat_index := Seat.seat_index seat in
  require (seat_index =? Game.action_on g) NotYourTurn ;;;
  f <-- is_folded g seat_index ;;
  require (negb f) PlayerFolded ;;;
  a <-- is_all_in g seat_index ;;
  require (negb a) PlayerAlreadyActed ;;;
  require (betting_stage (Game.stage g)) InvalidGameStage ;;;
  let amount_to_call := saturating_sub (Game.current_bet g) (Seat.current_bet seat) in
  seat <-- (match act with
            | Fold => do_fold seat_key seat_index seat
            | Check => do_check amount_to_call seat
            | Call => do_call seat_key amount_to_call seat
            | Raise => do_raise seat_key seat_index amount_to_call raise_amount seat
            | AllIn => do_all_in seat_key seat_index seat
            end) ;;
  seat <-- save seat_key (Seat.set_has_acted true seat) ;;
  g <-- game_of ;;
  acted <-- checked_add 8 (Game.players_acted g) 1 ;;
  update_game (Game.set_players_acted acted) ;;;
  advance_action.

(** ** advance_stage.rs

    The seats to reset arrive as raw account data ([remaining_accounts]);
    the handler's state is the game and that list of byte arrays. *)

Definition AdvState : Type := (PokerGame * list (list Z))%type.

Definition adv_game : M AdvState PokerGame := fun st => (st, inr (fst st)).
Definition adv_update (f : PokerGame -> PokerGame) : M AdvState unit :=
  modify (fun st => (f (fst st), snd st)).

(** [u64::to_le_bytes] *)
Fixpoint to_le_bytes (n : nat) (v : Z) : list Z :=
  match n with
  | O => []
  | Datatypes.S n' => (v mod 256) :: to_le_bytes n' (v / 256)
  end.

(** [data[off..off + src.len()].copy_from_slice(src)]; [None] is the
    out-of-range panic. *)
Definition copy_from_slice (d : list Z) (off : nat) (src : list Z)
    : option (list Z) :=
  if (off + length src <=? length d)%nat then
    Some (imap (fun i b => if (off <=? i)%nat && (i <? off + length src)%nat
                          then nth (i - off) src b else b) d)
  else None.

Definition current_bet_offset : nat := 113.
Definition has_acted_offset : nat := 131.

(** The body of the loop over [remaining_accounts]. *)
Definition reset_seat_data (data : list Z) : option (list Z) :=
  if (length data <? 8 + 32)%nat then Some data
  else if (has_acted_offset <? length data)%nat then
    match copy_from_slice data current_bet_offset (to_le_bytes 8 0) with
    | Some d => Some (<[has_acted_offset := 0]> d)
    | None => None
    end
  else Some data.

Fixpoint reset_accounts {S} (accs : list (list Z)) : M S (list (list Z)) :=
  match accs with
  | [] => ret []
  | d :: ds =>
      d' <-- (match reset_seat_data d with
              | Some x => ret x | None => throw Panic end) ;;
      ds' <-- reset_accounts ds ;;
      ret (d' :: ds')
  end.

Definition reveal (s : GameStage) (community_revealed : Z) : Z :=
  match s with
  | Flop => Z.lor community_revealed 7
  | Turn => Z.lor community_revealed 8
  | River => Z.lor community_revealed 16
  | _ => community_revealed
  end.

Definition advance_stage : M AdvState unit :=
  g <-- adv_game ;;
  require (negb (GameStage_eqb (Game.stage g) Waiting)
           && negb (GameStage_eqb (Game.stage g) Finished)) InvalidGameStage ;;;
  if Game.players_remaining g =? 1 then
    adv_update (Game.set_stage Showdown)
  else
    st <-- get ;;
    accs <-- reset_accounts (snd st) ;;
    put (fst st, accs) ;;;
    next_stage <-- (match next (Game.stage g) with
                    | Some s => ret s
                    | None => throw (Poker InvalidGameStage) end) ;;
    adv_update (fun g => Game.set_community_revealed
                          (reveal next_stage (Game.community_revealed g)) g) ;;;
    adv_update (Game.set_current_bet 0) ;;;
    adv_update (Game.set_players_acted 0) ;;;
    adv_update (Game.set_last_raiser 0) ;;;
    adv_update (Game.set_last_raise_amount 0) ;;;
    g <-- adv_game ;;
    d1 <-- checked_add 8 (Game.dealer_position g) 1 ;;
    sb_position <-- checked_rem d1 (Game.player_count g) ;;
    action_pos <-- scan_active g (Z.to_nat (Game.player_count g)) sb_position ;;
    adv_update (Game.set_action_on action_pos) ;;;
    adv_update (Game.set_stage next_stage).

(** *** Reading a [PlayerSeat] account (Borsh layout)

    Modelled from the spec: the declaration of [PlayerSeat]
    (state/player_seat.rs) is not among the sources; its fields, in the
    order of the spec's data model and of the layout comment in
    [advance_stage] (8-byte discriminator, game 32, player 32,
    seat_index 1, chips 8, hole_card_1 16, hole_card_2 16, current_bet 8,
    total_bet 8, is_folded 1, is_all_in 1, has_acted 1, hand_rank 8,
    bump 1), serialised little-endian as Borsh does. *)

Definition PLAYER_SEAT_LEN : nat := 141.

Definition le_val (bs : list Z) : Z := fold_right (fun b acc => b + 256 * acc) 0 bs.

Definition field (d : list Z) (off len : nat) : Z := le_val (take len (drop off d)).

Definition decode_bool (b : Z) : option bool :=
  if b =? 0 then Some false else if b =? 1 then Some true else None.

Definition decode_seat (disc : list Z) (d : list Z) : option PlayerSeat :=
  if (length d <? PLAYER_SEAT_LEN)%nat then None
  else if negb (bool_decide (take 8 d = disc)) then None
  else
    match decode_bool (field d 129 1), decode_bool (field d 130 1),
          decode_bool (field d 131 1) with
    | Some f, Some a, Some h =>
        Some (Seat.mkPlayerSeat (field d 8 32) (field d 40 32) (field d 72 1)
                (field d 73 8) (field d 81 16) (field d 97 16) (field d 113 8)
                (field d 121 8) f a h (field d 132 8) (field d 140 1))
    | _, _, _ => None
    end.

(** ** start_game.rs: the state of a fresh game *)
Definition start_game (table_key game_id player_count bump : Z) : PokerGame :=
  Game.mkPokerGame table_key game_id Waiting 0 0 0 0 player_count 0 player_count
    0 0 0 0 0 (repeat 0 15) 0 0 0 0 false false 0 0 None bump.

(** Several instructions in a row; the first failure stops the sequence. *)
Fixpoint run_txs {S} (ms : list (M S unit)) (s : S) : Error + S :=
  match ms with
  | [] => inr s
  | m :: ms' => match tx m s with inr s' => run_txs ms' s' | inl e => inl e end
  end.

(** * A concrete hand

    Three seats at a table with buy-in range 10..1000 and small blind 1.
    The encryption CPIs are replaced by arithmetic stand-ins: [ex_ingest]
    turns a ciphertext into a handle, [ex_add] adds handles. *)
Definition ex_ingest (ct : list Z) (_ : Z) : option Z := Some (1000 + le_val ct).
Definition ex_add (a b : Z) : option Z := Some (a + b).
Definition ex_allow (_ : Z) : option unit := Some tt.
Definition ex_table : PokerTable := mkPokerTable 10 1000 1.
Definition ex_world0 : World := mkWorld 1 (start_game 100 1 3 0) ∅.

(** The three commit batches, ciphertexts [[1]] to [[15]]. *)
Definition ex_submit (k : Z) : M World unit :=
  submit_cards ex_ingest k [5*k+1] [5*k+2] [5*k+3] [5*k+4] [5*k+5] 0.
Definition ex_commit : list (M World unit) := [ex_submit 0; ex_submit 1; ex_submit 2].
Definition ex_blind : list (M World unit) :=
  [apply_offset_batch (Some 7) ex_add 0; apply_offset_batch (Some 9) ex_add 1;
   apply_offset_batch (Some 9) ex_add 2].
Definition ex_deal (seat : Z) : M World unit :=
  deal_cards ex_allow 0 ex_table (50 + seat) 0 seat 100.
Definition ex_deal_all : list (M World unit) := [ex_deal 0; ex_deal 1; ex_deal 2].

(** A five-seat game ready to deal, with pool handles 200..214 and
    [position_offset = 3]. *)
Definition ex_rot_world : World :=
  mkWorld 2
    (Game.set_position_offset 3
       (Game.set_offset_applied true
          (Game.set_cards_submitted true
             (Game.set_card_pool (map (fun i => 200 + Z.of_nat i) (seq 0 15))
                (start_game 100 2 5 0)))))
    ∅.

(** A PreFlop round facing a bet of 20 after a raise of 20; seat 0 (key 0,
    player 50, 1000 chips) is to act. *)
Definition ex_raise_seat : PlayerSeat :=
  Seat.mkPlayerSeat 1 50 0 1000 0 0 0 0 false false false 0 0.
Definition ex_raise_world : World :=
  mkWorld 1
    (Game.set_last_raise_amount 20
       (Game.set_current_bet 20 (Game.set_stage PreFlop (start_game 100 1 3 0))))
    {[0 := ex_raise_seat]}.

(** Sum of [total_bet] over the seats of the game. *)
Definition sum_total_bet (w : World) : Z :=
  map_fold (fun _ s acc => Seat.total_bet s + acc) 0 (w_seats w).

(** The checks [player_action] makes before it looks at the action: the seat
    account [k] belongs to this game and to [player], it is that seat's turn,
    the seat has not folded and is not all in, and the stage is a betting
    stage. *)
Definition can_act (w : World) (k player : Z) (st : PlayerSeat) : Prop :=
  w_seats w !! k = Some st /\
  Seat.game st = w_game_key w /\
  Seat.player st = player /\
  Seat.seat_index st = Game.action_on (w_game w) /\
  0 <= Seat.seat_index st < 8 /\
  Z.testbit (Game.folded_mask (w_game w)) (Seat.seat_index st) = false /\
  Z.testbit (Game.all_in_mask (w_game w)) (Seat.seat_index st) = false /\
  betting_stage (Game.stage (w_game w)) = true.

(** An advance_stage call on the flop of the three-seat game, with one seat
    account: discriminator [ex_disc], [current_bet] 5, [total_bet] 9, folded,
    [has_acted] set. *)
Definition ex_adv_game : PokerGame := Game.set_stage Flop (start_game 100 1 3 0).
Definition ex_disc : list Z := [1; 2; 3; 4; 5; 6; 7; 8].
Definition ex_seat_bytes : list Z :=
  ex_disc ++ replicate 105 0 ++ [5; 0; 0; 0; 0; 0; 0; 0] ++ [9; 0; 0; 0; 0; 0; 0; 0]
  ++ [1; 0; 1] ++ replicate 9 0.

(** The bytes of a seat account that [reset_seat_data] zeroes: [current_bet]
    (113..120) and [has_acted] (131). *)
Definition reset_byte (i : nat) : bool :=
  ((113 <=? i)%nat && (i <? 121)%nat) || (i =? 131)%nat.

(** A game whose flop is revealed ([community_revealed = 0b111]). *)
Definition ex_flop_game : PokerGame := Game.set_community_revealed 7 ex_adv_game.

(** * More of the program *)

(** ** Readings of the [PokerGame] methods as pure functions *)

(** The seat [is_active] reports active: neither its [folded_mask] bit nor
    its [all_in_mask] bit is set. *)
Definition seat_active (g : PokerGame) (i : Z) : bool :=
  negb (Z.testbit (Game.folded_mask g) i) && negb (Z.testbit (Game.all_in_mask g) i).

(** The active seats among [0..n). *)
Definition active_seats (g : PokerGame) (n : nat) : list nat :=
  List.filter (fun i => seat_active g (Z.of_nat i)) (seq 0 n).

(** [GameStage::community_cards_to_reveal] (state/mod.rs) *)
Definition community_cards_to_reveal (s : GameStage) : Z :=
  match s with Flop => 3 | Turn => 4 | River => 5 | _ => 0 end.

(** ** The [PokerGame] account in Borsh ([#[account]]) *)

(** Variant index of a [GameStage]. *)
Definition stage_index (s : GameStage) : Z :=
  match s with
  | Waiting => 0 | PreFlop => 1 | Flop => 2 | Turn => 3 | River => 4
  | Showdown => 5 | Finished => 6
  end.

(** An [Option<u8>]: tag byte, then the value if any. *)
Definition borsh_option_u8 (o : option Z) : list Z :=
  match o with None => [0] | Some v => 1 :: to_le_bytes 1 v end.

(** The fields of [PokerGame] in declaration order ([Pubkey] 32 bytes,
    [Euint128] 16 bytes, [[Euint128; 15]] without a length prefix); the
    account adds the 8-byte discriminator. *)
Definition serialize_game (g : PokerGame) : list Z :=
  to_le_bytes 32 (Game.table g) ++ to_le_bytes 8 (Game.game_id g) ++
  [stage_index (Game.stage g)] ++ to_le_bytes 8 (Game.pot g) ++
  to_le_bytes 8 (Game.current_bet g) ++ to_le_bytes 1 (Game.dealer_position g) ++
  to_le_bytes 1 (Game.action_on g) ++ to_le_bytes 1 (Game.players_remaining g) ++
  to_le_bytes 1 (Game.players_acted g) ++ to_le_bytes 1 (Game.player_count g) ++
  to_le_bytes 1 (Game.folded_mask g) ++ to_le_bytes 1 (Game.all_in_mask g) ++
  to_le_bytes 1 (Game.blinds_posted g) ++ to_le_bytes 1 (Game.last_raiser g) ++
  to_le_bytes 8 (Game.last_raise_amount g) ++
  List.concat (List.map (to_le_bytes 16) (Game.card_pool g)) ++
  to_le_bytes 16 (Game.encrypted_offset g) ++ to_le_bytes 1 (Game.offset_batch g) ++
  to_le_bytes 2 (Game.cards_offset_mask g) ++ to_le_bytes 1 (Game.position_offset g) ++
  [Z.b2z (Game.cards_submitted g)] ++ [Z.b2z (Game.offset_applied g)] ++
  to_le_bytes 1 (Game.cards_dealt_count g) ++ to_le_bytes 1 (Game.community_revealed g) ++
  borsh_option_u8 (Game.winner_seat g) ++ to_le_bytes 1 (Game.bump g).

(** [PokerGame::LEN] *)
Definition POKER_GAME_LEN : nat :=
  8 + 32 + 8 + 1 + 8 + 8 + 1 * 9 + 8 + 240 + 16 + 1 + 2 + 1 + 1 + 1 + 1 + 1 + 2 + 1.

(** ** The table instructions *)

(** [Option::is_none] *)
Definition is_none {A} (o : option A) : bool :=
  match o with None => true | Some _ => false end.

(** The fields of [PokerTable] that [join_table] and [start_game] read and
    write (state/poker_table.rs is not among the sources). *)
Module Table.
Record PokerTable := mkPokerTable {
  admin : Z;
  max_players : Z;
  buy_in_min : Z;
  buy_in_max : Z;
  player_count : Z;
  current_game : option Z
}.

Definition set_player_count (v : Z) (t : PokerTable) : PokerTable :=
  mkPokerTable (admin t) (max_players t) (buy_in_min t) (buy_in_max t) v (current_game t).
Definition set_current_game (v : option Z) (t : PokerTable) : PokerTable :=
  mkPokerTable (admin t) (max_players t) (buy_in_min t) (buy_in_max t) (player_count t) v.
End Table.

(** join_table.rs: [transfer] is the system-program transfer CPI of the
    buy-in to the vault.  [table.player_count += 1] cannot overflow: it runs
    only when [player_count < max_players]. *)
Module JoinTable.
Definition handler (transfer : Z -> option unit) (buy_in : Z)
    : M Table.PokerTable unit :=
  table <-- get ;;
  require ((Table.buy_in_min table <=? buy_in) && (buy_in <=? Table.buy_in_max table))
    InvalidBuyIn ;;;
  require (Table.player_count table <? Table.max_players table) TableFull ;;;
  require (is_none (Table.current_game table)) GameInProgress ;;;
  cpi (transfer buy_in) ;;;
  table <-- get ;;
  put (Table.set_player_count (Table.player_count table + 1) table).
End JoinTable.

(** start_game.rs: the accounts are the table and the game PDA ([None]
    while it does not exist).  [min_players] is [constants::MIN_PLAYERS]
    (constants.rs is not among the sources); [table_key] and [game_key] are
    the addresses of the two accounts, [bump] the PDA bump of the game. *)
Module StartGame.
Definition StartState : Type := (Table.PokerTable * option PokerGame)%type.

Definition handler (min_players admin table_key game_key bump : Z) (game_id : Z)
    : M StartState unit :=
  st <-- get ;;
  (* account constraint [table.admin == admin.key() @ PokerError::NotAdmin] *)
  require (Table.admin (fst st) =? admin) NotAdmin ;;;
  (* [init] on the game PDA fails when the account already exists *)
  (match snd st with Some _ => throw AccountError | None => ret tt end) ;;;
  let table := fst st in
  require (admin =? Table.admin table) NotAdmin ;;;
  require (is_none (Table.current_game table)) GameInProgress ;;;
  require (min_players <=? Table.player_count table) NotEnoughPlayers ;;;
  let game := start_game table_key game_id (Table.player_count table) bump in
  put (Table.set_current_game (Some game_key) table, Some game).
End StartGame.

(** A table of admin 7 for up to 3 players, buy-in 10..1000, with 1 player
    seated and no game. *)
Definition ex_table_acct : Table.PokerTable := Table.mkPokerTable 7 3 10 1000 1 None.

(** * Reasoning about the instruction monad *)

Section MonadFacts.
Context {S : Type}.

(** [m] never writes. *)
Definition readonly {A} (m : M S A) : Prop :=
  forall s s' r, m s = (s', r) -> s' = s.

(** [m] never fails with a validation error. *)
Definition noval {A} (m : M S A) : Prop :=
  forall s s' e, m s = (s', inl e) -> ~ validation_error e.

(** A validation failure of [m] leaves the state as it was. *)
Definition keeps {A} (m : M S A) : Prop :=
  forall s s' e, m s = (s', inl e) -> validation_error e -> s' = s.

Lemma readonly_keeps {A} (m : M S A) : readonly m -> keeps m.
Proof. intros H s s' e E _. exact (H _ _ _ E). Qed.

Lemma noval_keeps {A} (m : M S A) : noval m -> keeps m.
Proof. intros H s s' e E V. exfalso. exact (H _ _ _ E V). Qed.

Lemma keeps_bind_ro {A B} (m : M S A) (k : A -> M S B) :
  readonly m -> (forall a, keeps (k a)) -> keeps (bind m k).
Proof.
  intros Hm Hk s s' e E V. unfold bind in E.
  destruct (m s) as [s1 [e1|a]] eqn:Em.
  - inversion E; subst. exact (Hm _ _ _ Em).
  - rewrite (Hm _ _ _ Em) in E. exact (Hk a _ _ _ E V).
Qed.

Lemma keeps_bind_noval {A B} (m : M S A) (k : A -> M S B) :
  keeps m -> (forall a, noval (k a)) -> keeps (bind m k).
Proof.
  intros Hm Hk s s' e E V. unfold bind in E.
  destruct (m s) as [s1 [e1|a]] eqn:Em.
  - inversion E; subst. exact (Hm _ _ _ Em V).
  - exfalso. exact (Hk a _ _ _ E V).
Qed.

Lemma noval_bind {A B} (m : M S A) (k : A -> M S B) :
  noval m -> (forall a, noval (k a)) -> noval (bind m k).
Proof.
  intros Hm Hk s s' e E. unfold bind in E.
  destruct (m s) as [s1 [e1|a]] eqn:Em.
  - inversion E; subst. exact (Hm _ _ _ Em).
  - exact (Hk a _ _ _ E).
Qed.

Lemma readonly_bind {A B} (m : M S A) (k : A -> M S B) :
  readonly m -> (forall a, readonly (k a)) -> readonly (bind m k).
Proof.
  intros Hm Hk s s' r E. unfold bind in E.
  destruct (m s) as [s1 [e1|a]] eqn:Em.
  - inversion E; subst. exact (Hm _ _ _ Em).
  - rewrite (Hm _ _ _ Em) in E. exact (Hk a _ _ _ E).
Qed.

Lemma readonly_ret {A} (a : A) : readonly (ret a).
Proof. intros s s' r E. now inversion E. Qed.
Lemma readonly_throw {A} e : readonly (@throw S A e).
Proof. intros s s' r E. now inversion E. Qed.
Lemma readonly_get : readonly (@get S).
Proof. intros s s' r E. now inversion E. Qed.
Lemma readonly_require b e : readonly (@require S b e).
Proof. destruct b; [apply readonly_ret | apply readonly_throw]. Qed.
Lemma readonly_cpi {A} (o : option A) : readonly (cpi o).
Proof. destruct o; [apply readonly_ret | apply readonly_throw]. Qed.

Lemma noval_ret {A} (a : A) : noval (ret a).
Proof. intros s s' e E. discriminate. Qed.
Lemma noval_put (x : S) : noval (put x).
Proof. intros s s' e E. discriminate. Qed.
Lemma noval_modify f : noval (@modify S f).
Proof. intros s s' e E. discriminate. Qed.
Lemma noval_get : noval (@get S).
Proof. intros s s' e E. discriminate. Qed.
Lemma noval_panic {A} : noval (@throw S A Panic).
Proof. intros s s' e E. inversion E; subst. simpl. tauto. Qed.
Lemma noval_cpi {A} (o : option A) : noval (cpi o).
Proof. destruct o; intros s s' e E; inversion E; subst; simpl; tauto. Qed.

Lemma ro_checked_add bits a b : readonly (@checked_add S bits a b).
Proof. unfold checked_add. destruct (_ <? _); [apply readonly_ret | apply readonly_throw]. Qed.
Lemma ro_checked_sub a b : readonly (@checked_sub S a b).
Proof. unfold checked_sub. destruct (_ <=? _); [apply readonly_ret | apply readonly_throw]. Qed.
Lemma ro_checked_mul bits a b : readonly (@checked_mul S bits a b).
Proof. unfold checked_mul. destruct (_ <? _); [apply readonly_ret | apply readonly_throw]. Qed.
Lemma ro_checked_rem a b : readonly (@checked_rem S a b).
Proof. unfold checked_rem. destruct (_ =? _); [apply readonly_throw | apply readonly_ret]. Qed.
Lemma ro_checked_shl bits a n : readonly (@checked_shl S bits a n).
Proof. unfold checked_shl. destruct (_ <? _); [apply readonly_ret | apply readonly_throw]. Qed.
Lemma ro_checked_shr bits a n : readonly (@checked_shr S bits a n).
Proof. unfold checked_shr. destruct (_ <? _); [apply readonly_ret | apply readonly_throw]. Qed.
Lemma ro_index l i : readonly (@index S l i).
Proof.
  unfold index. destruct (l !! _); [destruct (_ <=? _)|];
    [apply readonly_ret | apply readonly_throw | apply readonly_throw].
Qed.
Lemma ro_set_index l i x : readonly (@set_index S l i x).
Proof. unfold set_index. destruct (_ && _); [apply readonly_ret | apply readonly_throw]. Qed.

Lemma noval_checked_add bits a b : noval (@checked_add S bits a b).
Proof. unfold checked_add. destruct (_ <? _); [apply noval_ret | apply noval_panic]. Qed.
Lemma noval_checked_sub a b : noval (@checked_sub S a b).
Proof. unfold checked_sub. destruct (_ <=? _); [apply noval_ret | apply noval_panic]. Qed.
Lemma noval_checked_mul bits a b : noval (@checked_mul S bits a b).
Proof. unfold checked_mul. destruct (_ <? _); [apply noval_ret | apply noval_panic]. Qed.
Lemma noval_checked_rem a b : noval (@checked_rem S a b).
Proof. unfold checked_rem. destruct (_ =? _); [apply noval_panic | apply noval_ret]. Qed.
Lemma noval_checked_shl bits a n : noval (@checked_shl S bits a n).
Proof. unfold checked_shl. destruct (_ <? _); [apply noval_ret | apply noval_panic]. Qed.
Lemma noval_checked_shr bits a n : noval (@checked_shr S bits a n).
Proof. unfold checked_shr. destruct (_ <? _); [apply noval_ret | apply noval_panic]. Qed.
Lemma noval_index l i : noval (@index S l i).
Proof.
  unfold index. destruct (l !! _); [destruct (_ <=? _)|];
    [apply noval_ret | apply noval_panic | apply noval_panic].
Qed.
Lemma noval_set_index l i x : noval (@set_index S l i x).
Proof. unfold set_index. destruct (_ && _); [apply noval_ret | apply noval_panic]. Qed.

End MonadFacts.

Create HintDb ro.
Create HintDb nv.
#[export] Hint Resolve readonly_ret readonly_throw readonly_get readonly_require
  readonly_cpi ro_checked_add ro_checked_sub ro_checked_mul ro_checked_rem
  ro_checked_shl ro_checked_shr ro_index ro_set_index : ro.
#[export] Hint Resolve noval_ret noval_put noval_modify noval_get noval_panic
  noval_cpi noval_checked_add noval_checked_sub noval_checked_mul
  noval_checked_rem noval_checked_shl noval_checked_shr noval_index
  noval_set_index : nv.

(** Proving [readonly] / [noval] of a composite computation. *)
Ltac solve_ro :=
  repeat first
    [ progress cbv zeta
    | apply readonly_bind; [solve [solve_ro] | intro]
    | match goal with |- readonly (if ?b then _ else _) => destruct b end
    | match goal with |- readonly (match ?x with _ => _ end) => destruct x end
    | solve [eauto with ro] ].

Ltac solve_nv :=
  repeat first
    [ progress cbv zeta
    | apply noval_bind; [solve [solve_nv] | intro]
    | match goal with |- noval (if ?b then _ else _) => destruct b end
    | match goal with |- noval (match ?x with _ => _ end) => destruct x end
    | solve [eauto with nv] ].

Section MethodFacts.
Context {S : Type}.

Lemma ro_is_folded g seat : readonly (@is_folded S g seat).
Proof. unfold is_folded. solve_ro. Qed.
Lemma ro_is_all_in g seat : readonly (@is_all_in S g seat).
Proof. unfold is_all_in. solve_ro. Qed.
Lemma ro_is_active g seat : readonly (@is_active S g seat).
Proof. unfold is_active. apply readonly_bind; [apply ro_is_folded|intros []];
  [apply readonly_ret | apply readonly_bind; [apply ro_is_all_in | intros; apply readonly_ret]].
Qed.
Lemma ro_scan_active g fuel pos : readonly (@scan_active S g fuel pos).
Proof.
  revert pos; induction fuel; intros pos; simpl; [apply readonly_ret|].
  apply readonly_bind; [apply ro_is_active | intros []]; solve_ro.
Qed.
Lemma ro_count_active g n i c : readonly (@count_active S g n i c).
Proof.
  revert i c; induction n; intros i c; simpl; [apply readonly_ret|].
  apply readonly_bind; [apply ro_is_active | intros []]; solve_ro.
Qed.
Lemma ro_active_player_count g : readonly (@active_player_count S g).
Proof. apply ro_count_active. Qed.
Lemma ro_is_card_offset g i : readonly (@is_card_offset S g i).
Proof. unfold is_card_offset. solve_ro. Qed.
Lemma ro_mark_card_offset g i : readonly (@mark_card_offset S g i).
Proof. unfold mark_card_offset. solve_ro. Qed.
Lemma ro_decode_action a : readonly (@decode_action S a).
Proof. unfold decode_action. solve_ro. Qed.

Lemma nv_is_folded g seat : noval (@is_folded S g seat).
Proof. unfold is_folded. solve_nv. Qed.
Lemma nv_is_all_in g seat : noval (@is_all_in S g seat).
Proof. unfold is_all_in. solve_nv. Qed.
Lemma nv_is_active g seat : noval (@is_active S g seat).
Proof. unfold is_active. apply noval_bind; [apply nv_is_folded|intros []];
  [apply noval_ret | apply noval_bind; [apply nv_is_all_in | intros; apply noval_ret]].
Qed.
Lemma nv_scan_active g fuel pos : noval (@scan_active S g fuel pos).
Proof.
  revert pos; induction fuel; intros pos; simpl; [apply noval_ret|].
  apply noval_bind; [apply nv_is_active | intros []]; solve_nv.
Qed.
Lemma nv_count_active g n i c : noval (@count_active S g n i c).
Proof.
  revert i c; induction n; intros i c; simpl; [apply noval_ret|].
  apply noval_bind; [apply nv_is_active | intros []]; solve_nv.
Qed.
Lemma nv_active_player_count g : noval (@active_player_count S g).
Proof. apply nv_count_active. Qed.
Lemma nv_is_card_offset g i : noval (@is_card_offset S g i).
Proof. unfold is_card_offset. solve_nv. Qed.
Lemma nv_mark_card_offset g i : noval (@mark_card_offset S g i).
Proof. unfold mark_card_offset. solve_nv. Qed.
Lemma nv_reset_accounts accs : noval (@reset_accounts S accs).
Proof. induction accs; simpl; solve_nv. Qed.

End MethodFacts.

Lemma ro_game_of : readonly game_of.
Proof. intros s s' r E. now inversion E. Qed.
Lemma ro_seat_at k : readonly (seat_at k).
Proof. intros s s' r E. unfold seat_at in E. destruct (_ !! _); now inversion E. Qed.
Lemma ro_adv_game : readonly adv_game.
Proof. intros s s' r E. now inversion E. Qed.
Lemma nv_game_of : noval game_of.
Proof. intros s s' e E. discriminate. Qed.
Lemma nv_adv_game : noval adv_game.
Proof. intros s s' e E. discriminate. Qed.
Lemma nv_update_game f : noval (update_game f).
Proof. apply noval_modify. Qed.
Lemma nv_adv_update f : noval (adv_update f).
Proof. apply noval_modify. Qed.
Lemma nv_write_seat k s : noval (write_seat k s).
Proof. apply noval_modify. Qed.
Lemma nv_save k s : noval (save k s).
Proof. unfold save. apply noval_bind; [apply nv_write_seat | intros; apply noval_ret]. Qed.

#[export] Hint Resolve ro_is_folded ro_is_all_in ro_is_active ro_scan_active
  ro_count_active ro_active_player_count ro_is_card_offset ro_mark_card_offset
  ro_decode_action ro_game_of ro_seat_at ro_adv_game : ro.
#[export] Hint Resolve nv_is_folded nv_is_all_in nv_is_active nv_scan_active
  nv_count_active nv_active_player_count nv_is_card_offset nv_mark_card_offset
  nv_reset_accounts nv_game_of nv_adv_game nv_update_game nv_adv_update
  nv_write_seat nv_save : nv.

Lemma nv_store_cards ing cards it start i n :
  noval (store_cards ing cards it start i n).
Proof. revert i; induction n; intros i; simpl; solve_nv. Qed.
Lemma nv_offset_cards add off i n : noval (offset_cards add off i n).
Proof. revert i; induction n; intros i; simpl; solve_nv. Qed.
Lemma nv_do_fold k i s : noval (do_fold k i s).
Proof. unfold do_fold. solve_nv. Qed.
Lemma nv_do_all_in k i s : noval (do_all_in k i s).
Proof. unfold do_all_in. solve_nv. Qed.
Lemma nv_advance_action : noval advance_action.
Proof. unfold advance_action. solve_nv. Qed.

#[export] Hint Resolve nv_store_cards nv_offset_cards nv_do_fold nv_do_all_in
  nv_advance_action : nv.

(** Proving [keeps]: read-only prefixes (lookups and [require!]s), then a
    body that raises no validation error. *)
Ltac solve_keeps :=
  repeat first
    [ progress cbv zeta
    | solve [apply noval_keeps; solve_nv]
    | solve [apply readonly_keeps; solve_ro]
    | apply keeps_bind_ro; [solve [solve_ro] | intro]
    | apply keeps_bind_noval; [solve [solve_keeps] | intro; solve [solve_nv]]
    | match goal with |- keeps (if ?b then _ else _) => destruct b end
    | match goal with |- keeps (match ?x with _ => _ end) => destruct x end ].
Lemma keeps_submit_cards ing b c0 c1 c2 c3 c4 it :
  keeps (submit_cards ing b c0 c1 c2 c3 c4 it).
Proof. unfold submit_cards. solve_keeps. Qed.
Lemma keeps_apply_offset_batch r add b : keeps (apply_offset_batch r add b).
Proof. unfold apply_offset_batch. solve_keeps. Qed.
Lemma keeps_generate_offset c : keeps (generate_offset c).
Proof. unfold generate_offset. solve_keeps. Qed.
Lemma keeps_deal_cards al n t p bmp i b : keeps (deal_cards al n t p bmp i b).
Proof. unfold deal_cards. solve_keeps. Qed.
Lemma keeps_post_blinds t sb bb : keeps (post_blinds t sb bb).
Proof. unfold post_blinds. solve_keeps. Qed.
Lemma keeps_player_action k p a r : keeps (player_action k p a r).
Proof. unfold player_action, do_check, do_call, do_raise. solve_keeps. Qed.
Lemma keeps_advance_stage : keeps advance_stage.
Proof.
  unfold advance_stage. apply keeps_bind_ro; [solve_ro | intro g].
  destruct (negb (GameStage_eqb (Game.stage g) Waiting)
            && negb (GameStage_eqb (Game.stage g) Finished)) eqn:Hst;
    [| intros s s' e E _; now inversion E].
  apply keeps_bind_ro; [solve_ro | intros _].
  destruct (Game.players_remaining g =? 1); [solve_keeps |].
  apply keeps_bind_ro; [solve_ro | intro st].
  apply keeps_bind_noval; [solve_keeps | intro accs].
  apply noval_bind; [solve_nv | intros _].
  destruct (next (Game.stage g)) eqn:Hn; [solve_nv |].
  exfalso. destruct (Game.stage g); discriminate.
Qed.

(** ** Running a handler symbolically *)

(** Unfold the monadic plumbing in [H] and case on the innermost
    scrutinee until the run is a list of facts. *)
(** A case that contradicts a known fact. *)
Ltac contra :=
  match goal with
  | H : ?t = true, H' : ?t = false |- _ => exfalso; rewrite H in H'; discriminate
  | H : ?t = Some _, H' : ?t = None |- _ => exfalso; rewrite H in H'; discriminate
  | H : ?t = Some ?a, H' : ?t = Some ?b |- _ =>
      is_var b; rewrite H in H'; injection H' as H'; subst b
  | H : Some ?a = Some ?b |- _ => is_var a; injection H as H; subst a
  | H : negb _ = true |- _ => apply negb_true_iff in H
  | H : negb _ = false |- _ => apply negb_false_iff in H
  end.

(** [crunch_with H tac] evaluates the run [H] case by case; [tac] runs after
    every case split. *)
Ltac crunch_with H tac :=
  unfold save, update_game, write_seat, game_of, seat_at, adv_game, adv_update,
    require, cpi, checked_add, checked_sub, checked_mul, checked_rem,
    checked_shl, checked_shr, index, set_index in H;
  unfold bind, ret, throw, get, put, modify in H;
  repeat (cbn beta iota zeta in H; try tac;
          match type of H with
          | context[match ?x with _ => _ end] =>
              lazymatch x with
              | context[match _ with _ => _ end] => fail
              | _ =>
                  lazymatch type of x with
                  | (_ * (_ + _))%type => destruct x as [? [?|?]] eqn:?
                  | _ => destruct x eqn:?
                  end
              end
          end).

Ltac crunch H := crunch_with H idtac.

Lemma testbit_shiftr_land (m i : Z) :
  0 <= i -> (Z.land (Z.shiftr m i) 1 =? 1) = Z.testbit m i.
Proof.
  intros Hi.
  assert (E : Z.land (Z.shiftr m i) 1 = Z.b2z (Z.testbit m i)).
  { rewrite (Z.land_ones _ 1) by lia. rewrite Z.shiftr_div_pow2 by lia.
    rewrite Z.testbit_spec' by lia. reflexivity. }
  rewrite E. destruct (Z.testbit m i); reflexivity.
Qed.

Lemma is_card_offset_spec {S} (g : PokerGame) (i : Z) (s : S) :
  0 <= i < 16 ->
  is_card_offset g i s = (s, inr (Z.testbit (Game.cards_offset_mask g) i)).
Proof.
  intros Hi. unfold is_card_offset, checked_shr, bind.
  replace (i <? 16) with true by (symmetry; apply Z.ltb_lt; lia).
  cbn. now rewrite testbit_shiftr_land by lia.
Qed.

Lemma mark_card_offset_spec {S} (g : PokerGame) (i : Z) (s : S) :
  0 <= i < 16 ->
  mark_card_offset g i s = (s, inr (Z.lor (Game.cards_offset_mask g) (2 ^ i))).
Proof.
  intros Hi. unfold mark_card_offset, checked_shl, bind.
  replace (i <? 16) with true by (symmetry; apply Z.ltb_lt; lia).
  cbn. unfold ret. do 3 f_equal.
  rewrite Z.shiftl_1_l. apply Z.bits_inj'. intros j Hj.
  rewrite Z.land_spec, Z.pow2_bits_eqb by lia.
  destruct (Z.eqb_spec i j) as [->|Hne]; simpl.
  - apply Z.ones_spec_low. lia.
  - reflexivity.
Qed.

Lemma testbit_lor_pow2 (m i j : Z) :
  0 <= i -> Z.testbit (Z.lor m (2 ^ i)) j = Z.testbit m j || (i =? j).
Proof.
  intros Hi. rewrite Z.lor_spec.
  destruct (Z.le_gt_cases 0 j).
  - now rewrite Z.pow2_bits_eqb by lia.
  - rewrite !Z.testbit_neg_r by lia. simpl. symmetry. apply Z.eqb_neq. lia.
Qed.

Arguments offset_cards : simpl never.
Arguments scan_active : simpl never.
Arguments count_active : simpl never.
Arguments store_cards : simpl never.
Arguments reset_accounts : simpl never.

Lemma offset_cards_S add off i n :
  offset_cards add off i (Datatypes.S n) =
    (g <-- game_of ;;
     already <-- is_card_offset g i ;;
     if already then offset_cards add off (i + 1) n
     else
       old <-- index (Game.card_pool g) i ;;
       h <-- cpi (add old off) ;;
       g <-- game_of ;;
       pool <-- set_index (Game.card_pool g) i h ;;
       update_game (Game.set_card_pool pool) ;;;
       g <-- game_of ;;
       mask <-- mark_card_offset g i ;;
       update_game (Game.set_cards_offset_mask mask) ;;;
       offset_cards add off (i + 1) n).
Proof. reflexivity. Qed.

(** A slot already marked is skipped: over a range whose bits are all set,
    the loop changes nothing. *)
Lemma offset_cards_noop add off n : forall i w,
  0 <= i -> i + Z.of_nat n <= 16 ->
  (forall j, i <= j < i + Z.of_nat n ->
     Z.testbit (Game.cards_offset_mask (w_game w)) j = true) ->
  offset_cards add off i n w = (w, inr tt).
Proof.
  induction n as [|n IH]; intros i w Hi Hn Hb; [reflexivity|].
  rewrite offset_cards_S. cbn [bind game_of]. unfold bind at 1.
  rewrite is_card_offset_spec by lia. rewrite Hb by lia.
  apply IH; [lia | lia |]. intros j Hj. apply Hb. lia.
Qed.

Lemma set_mask_pool_twice (g : PokerGame) p1 m1 p2 m2 :
  Game.set_cards_offset_mask m2 (Game.set_card_pool p2
    (Game.set_cards_offset_mask m1 (Game.set_card_pool p1 g))) =
  Game.set_cards_offset_mask m2 (Game.set_card_pool p2 g).
Proof. destruct g; reflexivity. Qed.

(** A successful pass changes only the card pool and the mask, keeps every
    bit already set and sets the bits of its range. *)
Lemma offset_cards_ok add off n : forall i w w',
  0 <= i -> i + Z.of_nat n <= 16 ->
  offset_cards add off i n w = (w', inr tt) ->
  (exists p m, w' = mkWorld (w_game_key w)
      (Game.set_cards_offset_mask m (Game.set_card_pool p (w_game w))) (w_seats w)) /\
  (forall j, Z.testbit (Game.cards_offset_mask (w_game w)) j = true ->
     Z.testbit (Game.cards_offset_mask (w_game w')) j = true) /\
  (forall j, i <= j < i + Z.of_nat n ->
     Z.testbit (Game.cards_offset_mask (w_game w')) j = true).
Proof.
  induction n as [|n IH]; intros i w w' Hi Hn H.
  - cbn in H. injection H as Hw. subst w'. split; [|split; [auto | intros; lia]].
    exists (Game.card_pool (w_game w)), (Game.cards_offset_mask (w_game w)).
    destruct w as [k [] s]; reflexivity.
  - rewrite offset_cards_S in H. cbn [bind game_of] in H. unfold bind at 1 in H.
    rewrite is_card_offset_spec in H by lia.
    destruct (Z.testbit (Game.cards_offset_mask (w_game w)) i) eqn:Hbit.
    + apply IH in H; [|lia|lia]. destruct H as (Hf & Hk & Hr).
      split; [exact Hf | split; [exact Hk |]].
      intros j Hj. destruct (Z.eq_dec j i) as [->|Hne]; [now apply Hk|].
      apply Hr. lia.
    + crunch H; try discriminate.
      match goal with E : mark_card_offset _ _ _ = _ |- _ =>
        rewrite mark_card_offset_spec in E by lia; injection E as <- <- end.
      apply IH in H; [|lia|lia]. destruct H as ((p & m & Hf) & Hk & Hr).
      cbn in Hk. split; [|split].
      * exists p, m. rewrite Hf. cbn. destruct w as [k g s]. cbn.
        now rewrite set_mask_pool_twice.
      * intros j Hj. apply Hk. rewrite testbit_lor_pow2 by lia. now rewrite Hj.
      * intros j Hj. destruct (Z.eq_dec j i) as [->|Hne].
        -- apply Hk. rewrite testbit_lor_pow2 by lia. rewrite Z.eqb_refl. apply orb_true_r.
        -- apply Hr. lia.
Qed.
Lemma apply_offset_batch_ok r add k w w1 :
  0 <= k <= 2 -> apply_offset_batch r add k w = (w1, inr tt) ->
  Game.offset_batch (w_game w1) <> 0 /\
  (forall j, k * 5 <= j < k * 5 + 5 ->
     Z.testbit (Game.cards_offset_mask (w_game w1)) j = true).
Proof.
  intros Hk E.
  assert (Hk' : k = 0 \/ k = 1 \/ k = 2) by lia.
  destruct Hk' as [-> | [-> | ->]];
  unfold apply_offset_batch in E; crunch E; try discriminate;
  repeat match goal with u : unit |- _ => destruct u end;
  match goal with
  | Hl : offset_cards _ _ _ _ _ = _ |- _ =>
      apply offset_cards_ok in Hl; [|unfold BATCH_SIZE; simpl; lia ..];
      destruct Hl as (_ & _ & Hr)
  end;
  injection E as <-; cbn; (split; [lia | intros j Hj; apply Hr; unfold BATCH_SIZE; simpl; lia]).
Qed.

Lemma apply_offset_batch_skip r add k w w2 :
  0 <= k <= 2 -> Game.offset_batch (w_game w) <> 0 ->
  (forall j, k * 5 <= j < k * 5 + 5 ->
     Z.testbit (Game.cards_offset_mask (w_game w)) j = true) ->
  apply_offset_batch r add k w = (w2, inr tt) ->
  Game.card_pool (w_game w2) = Game.card_pool (w_game w) /\
  Game.cards_offset_mask (w_game w2) = Game.cards_offset_mask (w_game w) /\
  Game.encrypted_offset (w_game w2) = Game.encrypted_offset (w_game w).
Proof.
  intros Hk Hob Hbits E.
  assert (Hk' : k = 0 \/ k = 1 \/ k = 2) by lia.
  destruct Hk' as [-> | [-> | ->]];
  unfold apply_offset_batch in E; crunch E; try discriminate;
  try (apply Z.eqb_eq in Heqb4; contradiction);
  match goal with
  | Hl : offset_cards _ _ _ _ _ = _ |- _ =>
      rewrite offset_cards_noop in Hl;
      [injection Hl as <- <- | unfold BATCH_SIZE; simpl; lia ..
      | intros j Hj; apply Hbits; unfold BATCH_SIZE in Hj; simpl in Hj; lia]
  end;
  injection E as <-; cbn; auto.
Qed.

(** C4: for batch [k] in 0..2, re-submitting [apply_offset_batch k] after a
    successful application (with any, even different, randomness and
    homomorphic-add results) leaves [card_pool], [cards_offset_mask] and
    [encrypted_offset] exactly as the first application left them: every slot
    of the batch is already marked and skipped, and the offset is not drawn
    again because [offset_batch] is no longer 0.  A retry that fails leaves the
    accounts untouched as well. *)
Theorem apply_offset_batch_retry_is_noop (e_rand1 e_rand2 : option Z)
    (add1 add2 : Z -> Z -> option Z) (k : Z) (w w1 : World) :
  0 <= k <= 2 ->
  tx (apply_offset_batch e_rand1 add1 k) w = inr w1 ->
  Game.card_pool (w_game (after (tx (apply_offset_batch e_rand2 add2 k) w1) w1))
    = Game.card_pool (w_game w1) /\
  Game.cards_offset_mask (w_game (after (tx (apply_offset_batch e_rand2 add2 k) w1) w1))
    = Game.cards_offset_mask (w_game w1) /\
  Game.encrypted_offset (w_game (after (tx (apply_offset_batch e_rand2 add2 k) w1) w1))
    = Game.encrypted_offset (w_game w1).
Proof.
  intros Hk H1.
  unfold tx in H1.
  destruct (apply_offset_batch e_rand1 add1 k w) as [w1' [e|[]]] eqn:E1; [discriminate|].
  injection H1 as <-.
  destruct (apply_offset_batch_ok _ _ _ _ _ Hk E1) as [Hob Hbits].
  unfold tx. destruct (apply_offset_batch e_rand2 add2 k w1') as [w2 [e|[]]] eqn:E2;
    cbn [after]; [auto|].
  exact (apply_offset_batch_skip _ _ _ _ _ Hk Hob Hbits E2).
Qed.

Lemma apply_offset_batch_retry_is_noop_witness :
  let W := after (run_txs ex_commit ex_world0) ex_world0 in
  let W1 := after (tx (apply_offset_batch (Some 7) ex_add 0) W) W in
  tx (apply_offset_batch (Some 7) ex_add 0) W = inr W1 /\
  Game.card_pool (w_game (after (tx (apply_offset_batch (Some 42) ex_add 0) W1) W1))
    = Game.card_pool (w_game W1) /\
  Game.cards_offset_mask (w_game (after (tx (apply_offset_batch (Some 42) ex_add 0) W1) W1))
    = Game.cards_offset_mask (w_game W1) /\
  Game.encrypted_offset (w_game (after (tx (apply_offset_batch (Some 42) ex_add 0) W1) W1))
    = Game.encrypted_offset (w_game W1).
Proof.
  intros W W1.
  assert (H : tx (apply_offset_batch (Some 7) ex_add 0) W = inr W1)
    by (vm_compute; reflexivity).
  split; [exact H|].
  apply (apply_offset_batch_retry_is_noop (Some 7) (Some 42) ex_add ex_add 0 W W1);
    [lia | exact H].
Defined.

(** C1 (refuted): once all three commit batches have landed,
    [cards_submitted] is true but [submit_cards] resets its submission mask
    [community_revealed] to 0 and never consults [cards_submitted].  A second
    submission of batch 0 therefore succeeds and overwrites pool slots 0..4
    instead of failing with [CardsAlreadySubmitted]. *)
Theorem submit_cards_resubmit_after_commit :
  let W := after (run_txs ex_commit ex_world0) ex_world0 in
  let W' := after (tx (submit_cards ex_ingest 0 [99] [98] [97] [96] [95] 0) W) W in
  run_txs ex_commit ex_world0 = inr W /\
  Game.cards_submitted (w_game W) = true /\
  tx (submit_cards ex_ingest 0 [99] [98] [97] [96] [95] 0) W = inr W' /\
  Game.card_pool (w_game W') <> Game.card_pool (w_game W).
Proof.
  intros W W'.
  split; [vm_compute; reflexivity|].
  split; [vm_compute; reflexivity|].
  split; [vm_compute; reflexivity|].
  vm_compute. discriminate.
Qed.

(** C2 (refuted): [deal_cards] checks [cards_submitted] and
    [offset_applied] but not [position_offset].  After the commit and blind
    phases, with [generate_offset] never called ([position_offset = 0]),
    dealing seat 0 succeeds: the seat is created and holds the unrotated pool
    slots 0 and 1. *)
Theorem deal_cards_without_position_offset :
  let W := after (run_txs (ex_commit ++ ex_blind) ex_world0) ex_world0 in
  let W' := after (tx (ex_deal 0) W) W in
  run_txs (ex_commit ++ ex_blind) ex_world0 = inr W /\
  Game.cards_submitted (w_game W) = true /\
  Game.offset_applied (w_game W) = true /\
  Game.position_offset (w_game W) = 0 /\
  w_seats W = ∅ /\
  tx (ex_deal 0) W = inr W' /\
  exists s, w_seats W' !! 0 = Some s /\
    Seat.hole_card_1 s = nth 0 (Game.card_pool (w_game W)) 0 /\
    Seat.hole_card_2 s = nth 1 (Game.card_pool (w_game W)) 0.
Proof.
  intros W W'.
  do 6 (split; [vm_compute; reflexivity|]).
  exists (Seat.mkPlayerSeat 1 50 0 100 1008 1009 0 0 false false false 0 0).
  vm_compute. auto.
Qed.

(** C3 (refuted): [player_action] is accepted in PreFlop before the blinds
    are posted, and [post_blinds] then overwrites the blind seats'
    [total_bet] with [=] while adding to [pot].  In the concrete hand below
    seat 0 checks and seat 1 raises 5 ([pot = 5 = Σ total_bet]); posting the
    blinds afterwards gives [pot = 8] but [Σ total_bet = 3]. *)
Theorem pot_total_bet_broken_by_post_blinds :
  let acts := ex_commit ++ ex_blind ++ [generate_offset (Some 1234)] ++ ex_deal_all ++
              [player_action 0 50 1 0; player_action 1 51 3 5] in
  let W := after (run_txs acts ex_world0) ex_world0 in
  let W' := after (tx (post_blinds ex_table 1 2) W) W in
  run_txs acts ex_world0 = inr W /\
  Game.pot (w_game W) = sum_total_bet W /\
  tx (post_blinds ex_table 1 2) W = inr W' /\
  Game.pot (w_game W') = 8 /\ sum_total_bet W' = 3.
Proof.
  intros acts W W'.
  do 4 (split; [vm_compute; reflexivity|]).
  vm_compute; reflexivity.
Qed.

(** C5: a successful [deal_cards] for seat [s] stores in the seat the
    handles at pool slots [(2s + j + position_offset) mod 10] for
    [j = 0] and [j = 1]. *)
Theorem deal_cards_hole_slots (allow : Z -> option unit) (n : nat) (table : PokerTable)
    (player bump s buy_in : Z) (w w' : World) :
  tx (deal_cards allow n table player bump s buy_in) w = inr w' ->
  exists st, w_seats w' !! s = Some st /\
    Game.card_pool (w_game w) !! Z.to_nat ((s * 2 + 0 + Game.position_offset (w_game w)) mod 10)
      = Some (Seat.hole_card_1 st) /\
    Game.card_pool (w_game w) !! Z.to_nat ((s * 2 + 1 + Game.position_offset (w_game w)) mod 10)
      = Some (Seat.hole_card_2 st).
Proof.
  intros H. unfold tx in H.
  destruct (deal_cards allow n table player bump s buy_in w) as [w1 [e|u]] eqn:E;
    [discriminate|].
  injection H as <-.
  unfold deal_cards in E. crunch E; try discriminate;
  injection E as <-; cbn [w_seats];
  (eexists; split; [apply lookup_insert_eq|]);
  cbn [Seat.hole_card_1 Seat.hole_card_2]; rewrite ?Z.add_0_r; split; first [reflexivity | assumption].
Qed.

Lemma deal_cards_hole_slots_witness :
  let W := ex_rot_world in
  let W0 := after (tx (deal_cards ex_allow 0 ex_table 50 0 0 100) W) W in
  let W4 := after (tx (deal_cards ex_allow 0 ex_table 54 0 4 100) W) W in
  tx (deal_cards ex_allow 0 ex_table 50 0 0 100) W = inr W0 /\
  tx (deal_cards ex_allow 0 ex_table 54 0 4 100) W = inr W4 /\
  (exists st, w_seats W0 !! 0 = Some st /\
     Game.card_pool (w_game W) !! 3%nat = Some (Seat.hole_card_1 st) /\
     Game.card_pool (w_game W) !! 4%nat = Some (Seat.hole_card_2 st)) /\
  (exists st, w_seats W4 !! 4 = Some st /\
     Game.card_pool (w_game W) !! 1%nat = Some (Seat.hole_card_1 st) /\
     Game.card_pool (w_game W) !! 2%nat = Some (Seat.hole_card_2 st)).
Proof.
  intros W W0 W4.
  assert (H0 : tx (deal_cards ex_allow 0 ex_table 50 0 0 100) W = inr W0)
    by (vm_compute; reflexivity).
  assert (H4 : tx (deal_cards ex_allow 0 ex_table 54 0 4 100) W = inr W4)
    by (vm_compute; reflexivity).
  split; [exact H0|]. split; [exact H4|].
  split.
  - destruct (deal_cards_hole_slots ex_allow 0 ex_table 50 0 0 100 W W0 H0)
      as (st & A & B & C).
    exists st. split; [exact A | split; [exact B | exact C]].
  - destruct (deal_cards_hole_slots ex_allow 0 ex_table 54 0 4 100 W W4 H4)
      as (st & A & B & C).
    exists st. split; [exact A | split; [exact B | exact C]].
Defined.

(** * Turn-taking never faults on a small table *)

Lemma is_folded_spec {S} (g : PokerGame) (i : Z) (s : S) :
  0 <= i < 8 -> is_folded g i s = (s, inr (Z.testbit (Game.folded_mask g) i)).
Proof.
  intros Hi. unfold is_folded, checked_shr, bind.
  replace (i <? 8) with true by (symmetry; apply Z.ltb_lt; lia).
  cbn. now rewrite testbit_shiftr_land by lia.
Qed.

Lemma is_all_in_spec {S} (g : PokerGame) (i : Z) (s : S) :
  0 <= i < 8 -> is_all_in g i s = (s, inr (Z.testbit (Game.all_in_mask g) i)).
Proof.
  intros Hi. unfold is_all_in, checked_shr, bind.
  replace (i <? 8) with true by (symmetry; apply Z.ltb_lt; lia).
  cbn. now rewrite testbit_shiftr_land by lia.
Qed.

Lemma is_active_ok {S} (g : PokerGame) (i : Z) (s : S) :
  0 <= i < 8 -> exists b, is_active g i s = (s, inr b).
Proof.
  intros Hi. unfold is_active, bind at 1. rewrite is_folded_spec by exact Hi.
  destruct (Z.testbit (Game.folded_mask g) i); [eexists; reflexivity|].
  unfold bind. rewrite is_all_in_spec by exact Hi. eexists; reflexivity.
Qed.

Lemma scan_active_S {S} (g : PokerGame) (fuel : nat) (pos : Z) :
  @scan_active S g (Datatypes.S fuel) pos =
    (a <-- is_active g pos ;;
     if a then ret pos
     else p1 <-- checked_add 8 pos 1 ;;
          p <-- checked_rem p1 (Game.player_count g) ;;
          scan_active g fuel p).
Proof. reflexivity. Qed.

Lemma count_active_S {S} (g : PokerGame) (n : nat) (i c : Z) :
  @count_active S g (Datatypes.S n) i c =
    (a <-- is_active g i ;;
     c <-- (if a then checked_add 8 c 1 else ret c) ;;
     count_active g n (i + 1) c).
Proof. reflexivity. Qed.

Lemma scan_active_ok {S} (g : PokerGame) (fuel : nat) : forall (pos : Z) (s : S),
  0 < Game.player_count g <= 8 -> 0 <= pos < 8 ->
  exists p, scan_active g fuel pos s = (s, inr p).
Proof.
  induction fuel as [|fuel IH]; intros pos s Hpc Hpos; [eexists; reflexivity|].
  rewrite scan_active_S. unfold bind at 1.
  destruct (is_active_ok g pos s Hpos) as [b ->].
  destruct b; [eexists; reflexivity|].
  unfold checked_add, bind. replace (pos + 1 <? 2 ^ 8) with true
    by (symmetry; apply Z.ltb_lt; lia).
  unfold checked_rem. replace (Game.player_count g =? 0) with false
    by (symmetry; apply Z.eqb_neq; lia).
  cbn. apply IH; [exact Hpc|].
  pose proof (Z.mod_pos_bound (pos + 1) (Game.player_count g)). lia.
Qed.

Lemma count_active_ok {S} (g : PokerGame) (n : nat) : forall (i c : Z) (s : S),
  0 <= i -> i + Z.of_nat n <= 8 -> 0 <= c -> c + Z.of_nat n < 256 ->
  exists c', count_active g n i c s = (s, inr c').
Proof.
  induction n as [|n IH]; intros i c s Hi Hn Hc Hcn; [eexists; reflexivity|].
  rewrite count_active_S. unfold bind at 1.
  destruct (is_active_ok g i s ltac:(lia)) as [b ->].
  destruct b.
  - unfold checked_add, bind. replace (c + 1 <? 2 ^ 8) with true
      by (symmetry; apply Z.ltb_lt; lia).
    cbn. apply IH; lia.
  - unfold bind. cbn. apply IH; lia.
Qed.

Lemma advance_action_ok (w : World) :
  0 < Game.player_count (w_game w) <= 8 -> 0 <= Game.action_on (w_game w) < 8 ->
  exists nxt, advance_action w =
    (mkWorld (w_game_key w) (Game.set_action_on nxt (w_game w)) (w_seats w), inr tt).
Proof.
  intros Hpc Ha. unfold advance_action, game_of, checked_add, checked_rem, bind.
  replace (Game.action_on (w_game w) + 1 <? 2 ^ 8) with true
    by (symmetry; apply Z.ltb_lt; lia).
  replace (Game.player_count (w_game w) =? 0) with false
    by (symmetry; apply Z.eqb_neq; lia).
  cbn.
  pose proof (Z.mod_pos_bound (Game.action_on (w_game w) + 1) (Game.player_count (w_game w))).
  destruct (scan_active_ok (w_game w) (Z.to_nat (Game.player_count (w_game w)))
              ((Game.action_on (w_game w) + 1) mod Game.player_count (w_game w)) w
              Hpc ltac:(lia)) as [p ->].
  exists p. unfold update_game, modify. cbn.
  unfold active_player_count.
  destruct (count_active_ok (Game.set_action_on p (w_game w))
     (Z.to_nat (Game.player_count (Game.set_action_on p (w_game w)))) 0 0
     (mkWorld (w_game_key w) (Game.set_action_on p (w_game w)) (w_seats w))
     ltac:(lia) ltac:(cbn; lia) ltac:(lia) ltac:(cbn; lia)) as [c Hc].
  rewrite Hc. destruct (c =? 0); [reflexivity|]. cbv beta. rewrite Hc. reflexivity.
Qed.
Lemma can_act_facts (w : World) (k player : Z) (st : PlayerSeat) :
  can_act w k player st ->
  w_seats w !! k = Some st /\
  (Seat.game st =? w_game_key w) = true /\
  (Seat.player st =? player) = true /\
  (Seat.seat_index st =? Game.action_on (w_game w)) = true /\
  (Seat.seat_index st <? 8) = true /\
  (Z.land (Z.shiftr (Game.folded_mask (w_game w)) (Seat.seat_index st)) 1 =? 1) = false /\
  (Z.land (Z.shiftr (Game.all_in_mask (w_game w)) (Seat.seat_index st)) 1 =? 1) = false /\
  betting_stage (Game.stage (w_game w)) = true.
Proof.
  intros (Hk & Hg & Hp & Ha & Hi & Hf & Hai & Hb).
  rewrite !testbit_shiftr_land by lia.
  repeat split; try assumption.
  - now apply Z.eqb_eq.
  - now apply Z.eqb_eq.
  - now apply Z.eqb_eq.
  - apply Z.ltb_lt; lia.
Qed.

(** Projections of the records after their setters. *)
Ltac simpl_rec_t c :=
  eval cbn [w_game w_seats w_game_key Game.table Game.game_id Game.stage Game.pot
        Game.current_bet Game.dealer_position Game.action_on
        Game.players_remaining Game.players_acted Game.player_count
        Game.folded_mask Game.all_in_mask Game.blinds_posted Game.last_raiser
        Game.last_raise_amount Game.card_pool Game.encrypted_offset
        Game.offset_batch Game.cards_offset_mask Game.position_offset
        Game.cards_submitted Game.offset_applied Game.cards_dealt_count
        Game.community_revealed Game.winner_seat Game.bump Game.set_table
        Game.set_game_id Game.set_stage Game.set_pot Game.set_current_bet
        Game.set_dealer_position Game.set_action_on Game.set_players_remaining
        Game.set_players_acted Game.set_player_count Game.set_folded_mask
        Game.set_all_in_mask Game.set_blinds_posted Game.set_last_raiser
        Game.set_last_raise_amount Game.set_card_pool
        Game.set_encrypted_offset Game.set_offset_batch
        Game.set_cards_offset_mask Game.set_position_offset
        Game.set_cards_submitted Game.set_offset_applied
        Game.set_cards_dealt_count Game.set_community_revealed
        Game.set_winner_seat Game.set_bump Seat.game Seat.player
        Seat.seat_index Seat.chips Seat.hole_card_1 Seat.hole_card_2
        Seat.current_bet Seat.total_bet Seat.is_folded Seat.is_all_in
        Seat.has_acted Seat.hand_rank Seat.bump Seat.set_game Seat.set_player
        Seat.set_seat_index Seat.set_chips Seat.set_hole_card_1
        Seat.set_hole_card_2 Seat.set_current_bet Seat.set_total_bet
        Seat.set_is_folded Seat.set_is_all_in Seat.set_has_acted
        Seat.set_hand_rank Seat.set_bump] in c.

Lemma bind_split {S A B} (m : M S A) (k : A -> M S B) (s : S) r :
  bind m k s = r ->
  (exists s' e, m s = (s', inl e) /\ r = (s', inl e)) \/
  (exists s' a, m s = (s', inr a) /\ k a s' = r).
Proof.
  unfold bind. destruct (m s) as [s' [e|a]]; intros H; [left|right]; eauto.
Qed.

Ltac prims H :=
  unfold save, update_game, write_seat, game_of, seat_at, require, cpi,
    checked_add, checked_sub, checked_mul, checked_rem, checked_shl, checked_shr,
    index, set_index, ret, throw, get, put, modify in H.

Ltac bool_to_prop H :=
  first [ apply Z.eqb_eq in H | apply Z.eqb_neq in H | apply Z.ltb_lt in H
        | apply Z.ltb_ge in H | apply Z.leb_le in H | apply Z.leb_gt in H ].

(** A stuck call of a read-only computation leaves the state as it was. *)
Ltac ro_step Hm :=
  match type of Hm with
  | ?m ?s = (?s1, _) =>
      is_var s1;
      let Hro := fresh "Hro" in
      assert (Hro : readonly m) by (solve [eauto with ro]);
      apply Hro in Hm; clear Hro; subst s1
  end.

(** [run H] evaluates the run [H : m s = r] one [bind] at a time. *)
Ltac run H :=
  repeat (try (repeat contra); cbv beta iota zeta in H;
    lazymatch type of H with
    | bind _ _ _ = _ =>
        let Hm := fresh "Hm" in
        apply bind_split in H;
        destruct H as [(?s1 & ?e1 & Hm & H) | (?s1 & ?a1 & Hm & H)];
        run Hm; try ro_step Hm; cbv beta in H
    | (_, _) = (_, _) => inversion H; clear H; subst
    | _ =>
        first
          [ progress (prims H); cbv beta iota zeta in H;
            cbn [w_game w_seats w_game_key] in H
          | match type of H with
            | context[if ?c then _ else _] =>
                lazymatch c with context[match _ with _ => _ end] => fail | _ => idtac end;
                let c' := simpl_rec_t c in change c with c' in H;
                let Hc := fresh "Hc" in destruct c' eqn:Hc;
                try (solve [repeat contra]);
                try (solve [bool_to_prop Hc; lia])
            | context[match ?x with _ => _ end] => destruct x eqn:?
            end ]
    end).

Ltac simpl_rec_goal := match goal with |- ?G => let G' := simpl_rec_t G in change G' end.

(** C6 (amended): for a seat that may act ([can_act]) in a betting stage, a
    [Raise] of [r] below the minimum raise ([last_raise_amount] if positive,
    else [current_bet]) fails with [RaiseTooSmall]; otherwise, given enough
    chips for [to_call + r], no u64 overflow and a table of at most 8 seats,
    it succeeds, the seat's [current_bet] grows by [to_call + r], the game's
    [current_bet] becomes the seat's new bet, [last_raise_amount = r],
    [last_raiser] is the seat, and [players_acted] is 1 (the raiser), not 0. *)
Theorem player_action_raise (k player r : Z) (w : World) (st : PlayerSeat) :
  can_act w k player st ->
  let g := w_game w in
  let min_raise := if 0 <? Game.last_raise_amount g then Game.last_raise_amount g
                   else Game.current_bet g in
  let to_call := saturating_sub (Game.current_bet g) (Seat.current_bet st) in
  (r < min_raise -> tx (player_action k player 3 r) w = inl (Poker RaiseTooSmall)) /\
  (min_raise <= r -> to_call + r <= Seat.chips st -> Seat.chips st < 2 ^ 64 ->
   Seat.current_bet st + (to_call + r) < 2 ^ 64 ->
   Seat.total_bet st + (to_call + r) < 2 ^ 64 ->
   Game.pot g + (to_call + r) < 2 ^ 64 ->
   0 < Game.player_count g <= 8 ->
   exists w' st',
     tx (player_action k player 3 r) w = inr w' /\
     w_seats w' !! k = Some st' /\
     Seat.chips st' = Seat.chips st - (to_call + r) /\
     Seat.current_bet st' = Seat.current_bet st + (to_call + r) /\
     Game.current_bet (w_game w') = Seat.current_bet st' /\
     Game.last_raise_amount (w_game w') = r /\
     Game.last_raiser (w_game w') = Seat.seat_index st /\
     Game.players_acted (w_game w') = 1).
Proof.
  intros Hca. cbv zeta.
  destruct (can_act_facts _ _ _ _ Hca) as (Hk & Hg & Hp & Ha & Hi & Hf & Hai & Hb).
  split.
  - intros Hr.
    destruct (0 <? Game.last_raise_amount (w_game w)) eqn:Hm in Hr;
    unfold tx; destruct (player_action k player 3 r w) as [w1 [e|u]] eqn:E;
    unfold player_action, decode_action, is_folded, is_all_in, do_raise in E;
    run E; first [reflexivity | congruence].
  - intros Hr Hc1 Hc2 Hc3 Hc4 Hc5 Hpc.
    destruct (0 <? Game.last_raise_amount (w_game w)) eqn:Hm in Hr;
    unfold tx; destruct (player_action k player 3 r w) as [w1 [e|u]] eqn:E;
    unfold player_action, decode_action, is_folded, is_all_in, do_raise in E;
    run E.
    all: try congruence;
    destruct Hca as (_ & _ & _ & Ha' & Hi' & _);
    match goal with
    | H : advance_action ?W = _ |- _ =>
        destruct (advance_action_ok W) as [nxt Hn];
        [simpl_rec_goal; lia | simpl_rec_goal; lia |];
        rewrite Hn in H; inversion H; subst
    end.
    all: do 2 eexists; split; [reflexivity|];
    split; [apply lookup_insert_eq|];
    simpl_rec_goal; repeat split; lia.
Qed.

(** C6 (counterexample): with [current_bet = 20] and [last_raise_amount = 20]
    a raise of 10 fails with [RaiseTooSmall] and a raise of 20 succeeds
    ([current_bet = 40], [last_raise_amount = 20]), but [players_acted] ends
    at 1, not 0: the raise resets it to 0 and the common update after every
    action then counts the raiser. *)
Lemma player_action_raise_players_acted_cex :
  let W' := after (tx (player_action 0 50 3 20) ex_raise_world) ex_raise_world in
  tx (player_action 0 50 3 10) ex_raise_world = inl (Poker RaiseTooSmall) /\
  tx (player_action 0 50 3 20) ex_raise_world = inr W' /\
  Game.current_bet (w_game W') = 40 /\
  Game.last_raise_amount (w_game W') = 20 /\
  Game.players_acted (w_game W') = 1.
Proof.
  intros W'.
  split; [vm_compute; reflexivity|].
  split; [vm_compute; reflexivity|].
  split; [vm_compute; reflexivity|].
  split; vm_compute; reflexivity.
Qed.

Lemma player_action_raise_witness :
  can_act ex_raise_world 0 50 ex_raise_seat /\
  tx (player_action 0 50 3 10) ex_raise_world = inl (Poker RaiseTooSmall) /\
  exists w' st',
    tx (player_action 0 50 3 20) ex_raise_world = inr w' /\
    w_seats w' !! 0 = Some st' /\
    Seat.current_bet st' = 40 /\
    Game.current_bet (w_game w') = 40 /\
    Game.last_raise_amount (w_game w') = 20 /\
    Game.players_acted (w_game w') = 1.
Proof.
  assert (Hc : can_act ex_raise_world 0 50 ex_raise_seat).
  { unfold can_act. repeat split; vm_compute; first [reflexivity | discriminate]. }
  destruct (player_action_raise 0 50 10 ex_raise_world ex_raise_seat Hc) as [Hlo _].
  destruct (player_action_raise 0 50 20 ex_raise_world ex_raise_seat Hc) as [_ Hhi].
  split; [exact Hc|].
  split; [apply Hlo; vm_compute; reflexivity|].
  destruct Hhi as (w' & st' & A & B & C & D & E & F & G & I);
    try (vm_compute; first [reflexivity | discriminate]);
    try (split; vm_compute; first [reflexivity | discriminate]).
  exists w', st'. split; [exact A|]. split; [exact B|].
  split; [rewrite D; vm_compute; reflexivity|].
  split; [rewrite E, D; vm_compute; reflexivity|].
  split; [exact F | exact I].
Defined.

(** [advance_action] only moves [action_on]. *)
Lemma advance_action_frame (w w' : World) r :
  advance_action w = (w', r) ->
  w' = w \/ exists nxt,
    w' = mkWorld (w_game_key w) (Game.set_action_on nxt (w_game w)) (w_seats w).
Proof.
  intros H. unfold advance_action, active_player_count in H.
  run H; eauto.
Qed.

Lemma player_action_fold (k player r : Z) (w w' : World) :
  tx (player_action k player 0 r) w = inr w' ->
  Game.players_remaining (w_game w') = Game.players_remaining (w_game w) - 1 /\
  (Game.players_remaining (w_game w') = 1 -> Game.stage (w_game w') = Showdown).
Proof.
  intros H. unfold tx in H.
  destruct (player_action k player 0 r w) as [w1 [e|u]] eqn:E; [discriminate|].
  injection H as <-.
  unfold player_action, decode_action, is_folded, is_all_in, do_fold in E.
  run E;
  match goal with H : advance_action _ = _ |- _ =>
    apply advance_action_frame in H; destruct H as [-> | [nxt ->]] end;
  simpl_rec_goal; (split; [lia|]); intros Hx; try reflexivity;
  match goal with Hc : (_ - 1 =? 1) = false |- _ => apply Z.eqb_neq in Hc; lia end.
Qed.

(** C7: a successful [Fold] decrements [players_remaining] and, when that
    leaves exactly one player, the stage is [Showdown]; so from a hand with
    three players remaining, any two successful folds in a row (whoever has
    or has not acted) end at [Showdown]. *)
Theorem player_action_fold_showdown :
  (forall (k player r : Z) (w w' : World),
     tx (player_action k player 0 r) w = inr w' ->
     Game.players_remaining (w_game w') = Game.players_remaining (w_game w) - 1 /\
     (Game.players_remaining (w_game w') = 1 -> Game.stage (w_game w') = Showdown)) /\
  (forall (k1 p1 r1 k2 p2 r2 : Z) (w0 w1 w2 : World),
     Game.players_remaining (w_game w0) = 3 ->
     tx (player_action k1 p1 0 r1) w0 = inr w1 ->
     tx (player_action k2 p2 0 r2) w1 = inr w2 ->
     Game.stage (w_game w2) = Showdown).
Proof.
  split; [exact player_action_fold|].
  intros k1 p1 r1 k2 p2 r2 w0 w1 w2 H3 H1 H2.
  apply player_action_fold in H1 as [R1 _].
  apply player_action_fold in H2 as [R2 S2].
  apply S2. lia.
Qed.

Lemma player_action_fold_showdown_witness :
  let W0 := after (run_txs (ex_commit ++ ex_blind ++ [generate_offset (Some 1234)]
                            ++ ex_deal_all) ex_world0) ex_world0 in
  let W1 := after (tx (player_action 0 50 0 0) W0) W0 in
  let W2 := after (tx (player_action 1 51 0 0) W1) W1 in
  Game.players_remaining (w_game W0) = 3 /\
  tx (player_action 0 50 0 0) W0 = inr W1 /\
  tx (player_action 1 51 0 0) W1 = inr W2 /\
  Game.players_remaining (w_game W1) = 2 /\
  Game.stage (w_game W2) = Showdown.
Proof.
  intros W0 W1 W2.
  assert (H0 : Game.players_remaining (w_game W0) = 3) by (vm_compute; reflexivity).
  assert (H1 : tx (player_action 0 50 0 0) W0 = inr W1) by (vm_compute; reflexivity).
  assert (H2 : tx (player_action 1 51 0 0) W1 = inr W2) by (vm_compute; reflexivity).
  split; [exact H0|]. split; [exact H1|]. split; [exact H2|].
  destruct player_action_fold_showdown as [Hf Hs].
  split.
  - destruct (Hf _ _ _ _ _ H1) as [R _]. rewrite R, H0. reflexivity.
  - exact (Hs _ _ _ _ _ _ _ _ _ H0 H1 H2).
Defined.

(** C8: [generate_offset] succeeds only when the cards are submitted, the
    offset batches are applied, the stage is [Waiting] and [position_offset]
    is still 0; it then stores a value in 1..10, so a second call on the same
    hand fails with [PositionOffsetAlreadySet] (and, failing, writes nothing). *)
Theorem generate_offset_once (slot slot2 : option Z) (w w' : World) :
  tx (generate_offset slot) w = inr w' ->
  Game.cards_submitted (w_game w) = true /\
  Game.offset_applied (w_game w) = true /\
  Game.stage (w_game w) = Waiting /\
  Game.position_offset (w_game w) = 0 /\
  1 <= Game.position_offset (w_game w') <= 10 /\
  tx (generate_offset slot2) w' = inl (Poker PositionOffsetAlreadySet).
Proof.
  intros H. unfold tx in H.
  destruct (generate_offset slot w) as [w1 [e|u]] eqn:E; [discriminate|].
  injection H as <-.
  unfold generate_offset in E. run E.
  pose proof (Z.mod_pos_bound (a1 mod 256) 10 ltac:(lia)).
  split; [reflexivity|]. split; [reflexivity|].
  split; [apply GameStage_eqb_eq; assumption|].
  split; [apply Z.eqb_eq; assumption|].
  split; [simpl_rec_goal; lia|].
  unfold tx.
  match goal with |- context[generate_offset slot2 ?W] =>
    destruct (generate_offset slot2 W) as [w2 [e|u]] eqn:E2 end;
  unfold generate_offset in E2; run E2; first [reflexivity | lia].
Qed.

Lemma generate_offset_once_witness :
  let W := after (run_txs (ex_commit ++ ex_blind) ex_world0) ex_world0 in
  let W' := after (tx (generate_offset (Some 1234)) W) W in
  tx (generate_offset (Some 1234)) W = inr W' /\
  Game.position_offset (w_game W') = 1 /\
  tx (generate_offset (Some 99)) W' = inl (Poker PositionOffsetAlreadySet).
Proof.
  intros W W'.
  assert (H : tx (generate_offset (Some 1234)) W = inr W') by (vm_compute; reflexivity).
  destruct (generate_offset_once (Some 1234) (Some 99) W W' H)
    as (_ & _ & _ & _ & _ & H2).
  split; [exact H|]. split; [vm_compute; reflexivity | exact H2].
Defined.

(** C9: for each of the seven handlers, every argument and every state, a
    call that stops at a precondition check (a typed [PokerError] from a
    [require!] or a failed account check) leaves the whole state, the game
    record and every seat record (for [advance_stage], every seat account's
    data), exactly as it was: no mask, counter or stage is half-written. *)
Theorem validation_failure_keeps_state :
  (forall ing b c0 c1 c2 c3 c4 it, keeps (submit_cards ing b c0 c1 c2 c3 c4 it)) /\
  (forall r add b, keeps (apply_offset_batch r add b)) /\
  (forall c, keeps (generate_offset c)) /\
  (forall al n t p bmp i b, keeps (deal_cards al n t p bmp i b)) /\
  (forall t sb bb, keeps (post_blinds t sb bb)) /\
  (forall k p a r, keeps (player_action k p a r)) /\
  keeps advance_stage.
Proof.
  split; [exact keeps_submit_cards|].
  split; [exact keeps_apply_offset_batch|].
  split; [exact keeps_generate_offset|].
  split; [exact keeps_deal_cards|].
  split; [exact keeps_post_blinds|].
  split; [exact keeps_player_action|].
  exact keeps_advance_stage.
Qed.

(** ** Resetting the seat accounts in advance_stage *)

Lemma reset_seat_data_bytes (d d' : list Z) :
  (PLAYER_SEAT_LEN <= length d)%nat ->
  reset_seat_data d = Some d' ->
  forall i, d' !! i = (fun b => if reset_byte i then 0 else b) <$> d !! i.
Proof.
  unfold PLAYER_SEAT_LEN. intros Hl H i.
  unfold reset_seat_data, copy_from_slice in H.
  destruct (length d <? 8 + 32)%nat eqn:E1; [apply Nat.ltb_lt in E1; lia|].
  destruct (has_acted_offset <? length d)%nat eqn:E2;
    [|apply Nat.ltb_ge in E2; unfold has_acted_offset in E2; lia].
  change (length (to_le_bytes 8 0)) with 8%nat in H.
  destruct (current_bet_offset + 8 <=? length d)%nat eqn:E3;
    [|apply Nat.leb_gt in E3; unfold current_bet_offset in E3; lia].
  cbv beta iota in H. apply (inj Some) in H. subst d'.
  unfold has_acted_offset, current_bet_offset.
  destruct (decide (131 = i)%nat) as [<-|Hne].
  - rewrite list_lookup_insert_eq by (rewrite length_imap; lia).
    destruct (d !! 131%nat) eqn:E; [reflexivity|].
    apply lookup_ge_None in E. lia.
  - rewrite list_lookup_insert_ne by exact Hne. rewrite list_lookup_imap. cbv beta. unfold reset_byte.
    destruct (113 <=? i)%nat eqn:Ea; destruct (i <? 113 + 8)%nat eqn:Eb;
      destruct (i <? 121)%nat eqn:Ec; destruct (i =? 131)%nat eqn:Ed; cbn [andb orb];
      repeat match goal with
             | H : (_ <=? _)%nat = true |- _ => apply Nat.leb_le in H
             | H : (_ <=? _)%nat = false |- _ => apply Nat.leb_gt in H
             | H : (_ <? _)%nat = true |- _ => apply Nat.ltb_lt in H
             | H : (_ <? _)%nat = false |- _ => apply Nat.ltb_ge in H
             | H : (_ =? _)%nat = true |- _ => apply Nat.eqb_eq in H
             | H : (_ =? _)%nat = false |- _ => apply Nat.eqb_neq in H
             end; try lia; try reflexivity.
    destruct (d !! i) as [b|]; [|reflexivity]. cbn [fmap option_fmap option_map].
    f_equal. assert (Hi : (i - 113 < 8)%nat) by lia.
    destruct (i - 113)%nat as [|[|[|[|[|[|[|[|j]]]]]]]]; try lia; reflexivity.
Qed.

Lemma reset_seat_data_length (d d' : list Z) :
  (PLAYER_SEAT_LEN <= length d)%nat ->
  reset_seat_data d = Some d' -> length d' = length d.
Proof.
  unfold PLAYER_SEAT_LEN. intros Hl H.
  unfold reset_seat_data, copy_from_slice in H.
  destruct (length d <? 8 + 32)%nat eqn:E1; [apply Nat.ltb_lt in E1; lia|].
  destruct (has_acted_offset <? length d)%nat eqn:E2;
    [|apply Nat.ltb_ge in E2; unfold has_acted_offset in E2; lia].
  change (length (to_le_bytes 8 0)) with 8%nat in H.
  destruct (current_bet_offset + 8 <=? length d)%nat eqn:E3;
    [|apply Nat.leb_gt in E3; unfold current_bet_offset in E3; lia].
  cbv beta iota in H. apply (inj Some) in H. subst d'.
  rewrite length_insert, length_imap. reflexivity.
Qed.

Lemma take_drop_ext (d d' : list Z) (off len : nat) :
  (forall i, (off <= i < off + len)%nat -> d' !! i = d !! i) ->
  take len (drop off d') = take len (drop off d).
Proof.
  intros H. apply list_eq. intros i.
  destruct (decide (i < len)%nat).
  - rewrite !lookup_take_lt, !lookup_drop by lia. apply H. lia.
  - rewrite !lookup_take_ge by lia. reflexivity.
Qed.

Ltac nat_bools :=
  repeat match goal with
         | H : (_ <=? _)%nat = true |- _ => apply Nat.leb_le in H
         | H : (_ <=? _)%nat = false |- _ => apply Nat.leb_gt in H
         | H : (_ <? _)%nat = true |- _ => apply Nat.ltb_lt in H
         | H : (_ <? _)%nat = false |- _ => apply Nat.ltb_ge in H
         | H : (_ =? _)%nat = true |- _ => apply Nat.eqb_eq in H
         | H : (_ =? _)%nat = false |- _ => apply Nat.eqb_neq in H
         end.

Lemma reset_byte_false (i off len : nat) :
  (off <= i < off + len)%nat ->
  (off + len <= 113 \/ (121 <= off /\ off + len <= 131) \/ 132 <= off)%nat ->
  reset_byte i = false.
Proof.
  intros Hi Ho. unfold reset_byte.
  destruct (113 <=? i)%nat eqn:Ea; destruct (i <? 121)%nat eqn:Eb;
    destruct (i =? 131)%nat eqn:Ec; cbn [andb orb]; nat_bools; try reflexivity; lia.
Qed.

(** A seat account that decodes to [s] decodes, after [reset_seat_data], to
    [s] with [current_bet = 0] and [has_acted = false], every other field as
    it was. *)
Lemma reset_seat_data_decode (disc d d' : list Z) (s : PlayerSeat) :
  decode_seat disc d = Some s -> reset_seat_data d = Some d' ->
  decode_seat disc d' = Some (Seat.set_has_acted false (Seat.set_current_bet 0 s)).
Proof.
  intros Hd Hr. unfold decode_seat in Hd.
  destruct (length d <? PLAYER_SEAT_LEN)%nat eqn:El; [discriminate|].
  apply Nat.ltb_ge in El. assert (El141 : (141 <= length d)%nat) by exact El.
  pose proof (reset_seat_data_bytes d d' El Hr) as Hb.
  pose proof (reset_seat_data_length d d' El Hr) as Hlen.
  assert (Hkeep : forall off len,
             (off + len <= 113 \/ (121 <= off /\ off + len <= 131) \/ 132 <= off)%nat ->
             take len (drop off d') = take len (drop off d)).
  { intros off len Ho. apply take_drop_ext. intros i Hi.
    rewrite Hb, (reset_byte_false i off len Hi Ho). destruct (d !! i); reflexivity. }
  assert (Hzero : forall off len, (forall i, (off <= i < off + len)%nat -> reset_byte i = true) ->
             (off + len <= length d)%nat ->
             take len (drop off d') = replicate len 0).
  { intros off len Hz Hle. apply list_eq. intros i.
    destruct (decide (i < len)%nat).
    - rewrite lookup_take_lt, lookup_drop, Hb, (Hz (off + i)%nat) by lia.
      rewrite lookup_replicate_2 by lia.
      destruct (d !! (off + i)%nat) eqn:E; [reflexivity|].
      apply lookup_ge_None in E. lia.
    - rewrite lookup_take_ge by lia. symmetry. apply lookup_replicate_None. lia. }
  assert (Hcb : take 8 (drop 113 d') = replicate 8 0).
  { apply Hzero; [|lia]. intros i Hi. unfold reset_byte.
    destruct (113 <=? i)%nat eqn:Ea; destruct (i <? 121)%nat eqn:Eb; cbn [andb orb];
      nat_bools; try reflexivity; lia. }
  assert (Hha : take 1 (drop 131 d') = replicate 1 0).
  { apply Hzero; [|lia]. intros i Hi. unfold reset_byte.
    assert (i = 131%nat) as -> by lia. reflexivity. }
  unfold decode_seat, field.
  rewrite Hlen.
  destruct (length d <? PLAYER_SEAT_LEN)%nat eqn:El'; [apply Nat.ltb_lt in El'; lia|].
  change (take 8 d') with (take 8 (drop 0 d')).
  rewrite (Hkeep 0%nat 8%nat) by lia. change (take 8 (drop 0 d)) with (take 8 d).
  destruct (negb (bool_decide (take 8 d = disc))); [discriminate|].
  rewrite Hcb, Hha.
  rewrite !(Hkeep _ _) by lia.
  unfold field in Hd.
  destruct (decode_bool (le_val (take 1 (drop 129 d)))); [|discriminate].
  destruct (decode_bool (le_val (take 1 (drop 130 d)))); [|discriminate].
  destruct (decode_bool (le_val (take 1 (drop 131 d)))); [|discriminate].
  injection Hd as <-. reflexivity.
Qed.

Lemma reset_accounts_nil {S} : @reset_accounts S [] = ret [].
Proof. reflexivity. Qed.

Lemma reset_accounts_cons {S} d ds : @reset_accounts S (d :: ds) =
  (d' <-- (match reset_seat_data d with
           | Some x => ret x | None => throw Panic end) ;;
   ds' <-- reset_accounts ds ;;
   ret (d' :: ds')).
Proof. reflexivity. Qed.

Lemma reset_accounts_ok {S} (accs : list (list Z)) (s s' : S) accs' :
  reset_accounts accs s = (s', inr accs') ->
  s' = s /\ Forall2 (fun d d' => reset_seat_data d = Some d') accs accs'.
Proof.
  revert s' accs'. induction accs as [|d ds IH]; intros s' accs' H;
    [rewrite reset_accounts_nil in H | rewrite reset_accounts_cons in H].
  - unfold ret in H. injection H as <- <-. split; [reflexivity | constructor].
  - unfold bind, ret, throw in H.
    destruct (reset_seat_data d) as [x|] eqn:Ed; cbv beta iota in H; [|discriminate].
    destruct (reset_accounts ds s) as [s1 [e|ds']] eqn:E in H; [discriminate|].
    injection H as <- <-. apply IH in E as [-> HF].
    split; [reflexivity | constructor; assumption].
Qed.

(** C10: when [advance_stage] succeeds with [players_remaining > 1], it
    returns as many seat accounts as it was given, and every account that
    decodes as a [PlayerSeat] [s] (folded or all in alike) decodes afterwards
    as [s] with [current_bet = 0] and [has_acted = false]; chips, total_bet,
    the hole cards, is_folded, is_all_in, hand_rank and the other fields are
    unchanged. *)
Theorem advance_stage_resets_seats (disc : list Z) (g : PokerGame)
    (accs : list (list Z)) (st : AdvState) :
  tx advance_stage (g, accs) = inr st ->
  1 < Game.players_remaining g ->
  length (snd st) = length accs /\
  forall i d s, accs !! i = Some d -> decode_seat disc d = Some s ->
    exists d', snd st !! i = Some d' /\
      decode_seat disc d' = Some (Seat.set_has_acted false (Seat.set_current_bet 0 s)).
Proof.
  intros H Hpr. unfold tx in H.
  destruct (advance_stage (g, accs)) as [st1 [e|u]] eqn:E; [discriminate|].
  injection H as <-.
  unfold advance_stage, adv_game, adv_update in E. run E.
  cbn [snd] in Hm |- *.
  apply reset_accounts_ok in Hm as [_ HF].
  split; [symmetry; exact (Forall2_length _ _ _ HF)|].
  intros i d s Hi Hd.
  destruct (Forall2_lookup_l _ _ _ _ _ HF Hi) as (d' & Hd' & Hr).
  exists d'. split; [exact Hd' | exact (reset_seat_data_decode _ _ _ _ Hd Hr)].
Qed.

Lemma advance_stage_resets_seats_witness :
  let S0 := (ex_adv_game, [ex_seat_bytes]) in
  let S1 := after (tx advance_stage S0) S0 in
  tx advance_stage S0 = inr S1 /\
  decode_seat ex_disc ex_seat_bytes =
    Some (Seat.mkPlayerSeat 0 0 0 0 0 0 5 9 true false true 0 0) /\
  exists d', snd S1 !! 0%nat = Some d' /\
    decode_seat ex_disc d' = Some (Seat.mkPlayerSeat 0 0 0 0 0 0 0 9 true false false 0 0).
Proof.
  intros S0 S1.
  assert (H : tx advance_stage S0 = inr S1) by (vm_compute; reflexivity).
  assert (Hd : decode_seat ex_disc ex_seat_bytes =
                 Some (Seat.mkPlayerSeat 0 0 0 0 0 0 5 9 true false true 0 0))
    by (vm_compute; reflexivity).
  destruct (advance_stage_resets_seats ex_disc ex_adv_game [ex_seat_bytes] S1 H
              ltac:(vm_compute; reflexivity)) as [_ Hall].
  split; [exact H|]. split; [exact Hd|].
  exact (Hall 0%nat ex_seat_bytes _ eq_refl Hd).
Defined.

Lemma is_active_spec {S} (g : PokerGame) (i : Z) (s : S) :
  0 <= i < 8 -> is_active g i s = (s, inr (seat_active g i)).
Proof.
  intros Hi. unfold is_active, seat_active, bind at 1. rewrite is_folded_spec by exact Hi.
  destruct (Z.testbit (Game.folded_mask g) i); [reflexivity|].
  unfold bind. rewrite is_all_in_spec by exact Hi. reflexivity.
Qed.

Lemma scan_active_finds {S} (g : PokerGame) (fuel : nat) : forall (pos p : Z) (s s' : S),
  0 < Game.player_count g <= 8 -> 0 <= pos < Game.player_count g ->
  scan_active g fuel pos s = (s', inr p) ->
  0 <= p < Game.player_count g /\
  (seat_active g p = true \/
   forall j, 0 <= j < Z.of_nat fuel ->
     seat_active g ((pos + j) mod Game.player_count g) = false).
Proof.
  induction fuel as [|fuel IH]; intros pos p s s' Hpc Hpos H.
  - cbn in H. injection H as _ <-. split; [lia|]. right. intros j Hj. lia.
  - rewrite scan_active_S in H. unfold bind at 1 in H.
    rewrite is_active_spec in H by lia.
    destruct (seat_active g pos) eqn:Ea.
    + injection H as _ <-. split; [lia | left; exact Ea].
    + unfold checked_add, bind in H.
      replace (pos + 1 <? 2 ^ 8) with true in H by (symmetry; apply Z.ltb_lt; lia).
      unfold checked_rem in H.
      replace (Game.player_count g =? 0) with false in H
        by (symmetry; apply Z.eqb_neq; lia).
      cbn in H.
      pose proof (Z.mod_pos_bound (pos + 1) (Game.player_count g)) as Hb.
      apply IH in H; [|lia|lia]. destruct H as [Hp [Ha | Hn]].
      * split; [exact Hp | left; exact Ha].
      * split; [exact Hp | right].
        intros j Hj. destruct (Z.eq_dec j 0) as [->|Hj0].
        -- rewrite Z.add_0_r, Z.mod_small by lia. exact Ea.
        -- specialize (Hn (j - 1) ltac:(lia)).
           rewrite Z.add_mod_idemp_l in Hn by lia.
           replace (pos + 1 + (j - 1)) with (pos + j) in Hn by lia. exact Hn.
Qed.

(** A full scan ([player_count] steps) stops at an active seat, or there is none. *)
Lemma scan_active_full {S} (g : PokerGame) (pos p : Z) (s s' : S) :
  0 < Game.player_count g <= 8 -> 0 <= pos < Game.player_count g ->
  scan_active g (Z.to_nat (Game.player_count g)) pos s = (s', inr p) ->
  0 <= p < Game.player_count g /\
  (seat_active g p = true \/
   forall i, 0 <= i < Game.player_count g -> seat_active g i = false).
Proof.
  intros Hpc Hpos H. apply scan_active_finds in H; [|lia|lia].
  destruct H as [Hp [Ha | Hn]].
  - split; [exact Hp | left; exact Ha].
  - split; [exact Hp | right]. intros i Hi.
    specialize (Hn ((i - pos) mod Game.player_count g)).
    pose proof (Z.mod_pos_bound (i - pos) (Game.player_count g)).
    rewrite Z2Nat.id in Hn by lia.
    rewrite Z.add_mod_idemp_r in Hn by lia.
    replace (pos + (i - pos)) with i in Hn by lia.
    rewrite (Z.mod_small i) in Hn by lia. apply Hn. lia.
Qed.

(** [run_keep H] is [run H] that also keeps, as [Hk..], each call of a
    read-only computation it steps over (e.g. [scan_active]). *)
Ltac ro_keep Hm :=
  match type of Hm with
  | ?m ?s = (?s1, _) =>
      is_var s1; let Hk := fresh "Hk" in pose proof Hm as Hk; ro_step Hm
  end.

Ltac run_keep H :=
  repeat (try (repeat contra); cbv beta iota zeta in H;
    lazymatch type of H with
    | bind _ _ _ = _ =>
        let Hm := fresh "Hm" in
        apply bind_split in H;
        destruct H as [(?s1 & ?e1 & Hm & H) | (?s1 & ?a1 & Hm & H)];
        run_keep Hm; try ro_keep Hm; cbv beta in H
    | (_, _) = (_, _) => inversion H; clear H; subst
    | _ =>
        first
          [ progress (prims H); cbv beta iota zeta in H;
            cbn [w_game w_seats w_game_key] in H
          | match type of H with
            | context[if ?c then _ else _] =>
                lazymatch c with context[match _ with _ => _ end] => fail | _ => idtac end;
                let c' := simpl_rec_t c in change c with c' in H;
                let Hc := fresh "Hc" in destruct c' eqn:Hc;
                try (solve [repeat contra]);
                try (solve [bool_to_prop Hc; lia])
            | context[match ?x with _ => _ end] => destruct x eqn:?
            end ]
    end).

Lemma advance_action_next (w w' : World) :
  0 <= Game.player_count (w_game w) <= 8 ->
  advance_action w = (w', inr tt) ->
  Game.player_count (w_game w') = Game.player_count (w_game w) /\
  0 <= Game.action_on (w_game w') < Game.player_count (w_game w') /\
  (seat_active (w_game w') (Game.action_on (w_game w')) = true \/
   forall i, 0 <= i < Game.player_count (w_game w') ->
     seat_active (w_game w') i = false).
Proof.
  intros Hpc H. unfold advance_action, active_player_count in H.
  run_keep H.
  all: match goal with Hk : scan_active _ _ _ _ = _ |- _ =>
         apply scan_active_full in Hk end;
  [| apply Z.eqb_neq in Hc0; lia
   | pose proof (Z.mod_pos_bound (Game.action_on (w_game s1) + 1) (Game.player_count (w_game s1)));
     apply Z.eqb_neq in Hc0; lia ..].
  all: unfold seat_active in *; simpl_rec_goal;
    split; [reflexivity | exact Hk].
Qed.

(** X1: chips move only from the acting seat to the pot. After a successful
    [player_action], the acting seat's chips plus the pot are unchanged, the
    seat's [current_bet] and [total_bet] grow by what the pot grew, the pot
    never shrinks, the seat's chips stay non-negative and no other seat
    changes. *)

Theorem player_action_moves_chips_to_pot (k player a r : Z) (w w' : World)
    (st : PlayerSeat) :
  0 <= r -> 0 <= Seat.chips st ->
  w_seats w !! k = Some st ->
  tx (player_action k player a r) w = inr w' ->
  exists st', w_seats w' !! k = Some st' /\
    0 <= Seat.chips st' /\
    Seat.chips st' + Game.pot (w_game w') = Seat.chips st + Game.pot (w_game w) /\
    Seat.total_bet st' - Seat.total_bet st = Game.pot (w_game w') - Game.pot (w_game w) /\
    Seat.current_bet st' - Seat.current_bet st = Game.pot (w_game w') - Game.pot (w_game w) /\
    Game.pot (w_game w) <= Game.pot (w_game w') /\
    (forall j, j <> k -> w_seats w' !! j = w_seats w !! j).
Proof.
  intros Hr Hc Hst H. unfold tx in H.
  destruct (player_action k player a r w) as [w1 [e|u]] eqn:E; [discriminate|].
  injection H as <-.
  unfold player_action, decode_action, is_folded, is_all_in,
    do_fold, do_check, do_call, do_raise, do_all_in in E.
  run E.
  all: match goal with H : advance_action _ = _ |- _ =>
         apply advance_action_frame in H; destruct H as [-> | [nxt ->]] end.
  all: eexists; split; [cbn [w_seats]; rewrite lookup_insert_eq; reflexivity|].
  all: simpl_rec_goal.
  all: unfold saturating_sub in *; repeat (split; [lia|]).
  all: intros j Hj; rewrite !lookup_insert_ne by congruence; reflexivity.
Qed.

(** X2: after a successful [player_action] on a table of at most 8 seats,
    [action_on] names a seat of the table, and that seat is active unless no
    seat of the table is active. *)
Theorem player_action_next_turn_active (k player a r : Z) (w w' : World) :
  0 <= Game.player_count (w_game w) <= 8 ->
  tx (player_action k player a r) w = inr w' ->
  0 <= Game.action_on (w_game w') < Game.player_count (w_game w') /\
  (seat_active (w_game w') (Game.action_on (w_game w')) = true \/
   forall i, 0 <= i < Game.player_count (w_game w') ->
     seat_active (w_game w') i = false).
Proof.
  intros Hpc H. unfold tx in H.
  destruct (player_action k player a r w) as [w1 [e|u]] eqn:E; [discriminate|].
  injection H as <-. destruct u.
  unfold player_action, decode_action, is_folded, is_all_in,
    do_fold, do_check, do_call, do_raise, do_all_in in E.
  run E.
  all: match goal with H : advance_action _ = _ |- _ =>
         apply advance_action_next in H; [exact (proj2 H) | simpl_rec_goal; lia] end.
Qed.

Lemma player_action_moves_chips_to_pot_witness :
  let W' := after (tx (player_action 0 50 3 20) ex_raise_world) ex_raise_world in
  tx (player_action 0 50 3 20) ex_raise_world = inr W' /\
  exists st', w_seats W' !! 0 = Some st' /\
    Seat.chips st' + Game.pot (w_game W') = 1000 + Game.pot (w_game ex_raise_world).
Proof.
  intros W'.
  assert (H : tx (player_action 0 50 3 20) ex_raise_world = inr W')
    by (vm_compute; reflexivity).
  destruct (player_action_moves_chips_to_pot 0 50 3 20 ex_raise_world W' ex_raise_seat
              ltac:(lia) ltac:(unfold ex_raise_seat; cbn; lia)
              ltac:(vm_compute; reflexivity) H) as (st' & Hs & _ & Hc & _).
  split; [exact H|]. exists st'. split; [exact Hs|]. exact Hc.
Defined.

Lemma player_action_next_turn_active_witness :
  let W' := after (tx (player_action 0 50 3 20) ex_raise_world) ex_raise_world in
  tx (player_action 0 50 3 20) ex_raise_world = inr W' /\
  0 <= Game.action_on (w_game W') < Game.player_count (w_game W').
Proof.
  intros W'.
  assert (H : tx (player_action 0 50 3 20) ex_raise_world = inr W')
    by (vm_compute; reflexivity).
  destruct (player_action_next_turn_active 0 50 3 20 ex_raise_world W'
              ltac:(vm_compute; split; discriminate) H) as [Hr _].
  split; [exact H | exact Hr].
Defined.

(** X3: a successful [advance_stage] started from neither Waiting nor
    Finished. With one player remaining it only moves the game to Showdown
    and leaves the seat accounts alone. Otherwise it moves to the next stage,
    zeroes [current_bet], [players_acted], [last_raiser] and
    [last_raise_amount], keeps the pot, the player counts and the
    folded/all-in masks, and (on at most 8 seats) hands the action to a seat
    of the table that is active unless no seat is active. *)
Theorem advance_stage_next_round (g : PokerGame) (accs : list (list Z)) (st : AdvState) :
  tx advance_stage (g, accs) = inr st ->
  Game.stage g <> Waiting /\ Game.stage g <> Finished /\
  (Game.players_remaining g = 1 -> st = (Game.set_stage Showdown g, accs)) /\
  (Game.players_remaining g <> 1 ->
     let g' := fst st in
     next (Game.stage g) = Some (Game.stage g') /\
     Game.current_bet g' = 0 /\ Game.players_acted g' = 0 /\
     Game.last_raiser g' = 0 /\ Game.last_raise_amount g' = 0 /\
     Game.pot g' = Game.pot g /\ Game.players_remaining g' = Game.players_remaining g /\
     Game.player_count g' = Game.player_count g /\
     Game.folded_mask g' = Game.folded_mask g /\ Game.all_in_mask g' = Game.all_in_mask g /\
     (0 <= Game.player_count g <= 8 ->
        0 <= Game.action_on g' < Game.player_count g' /\
        (seat_active g' (Game.action_on g') = true \/
         forall i, 0 <= i < Game.player_count g' -> seat_active g' i = false))).
Proof.
  intros H. unfold tx in H.
  destruct (advance_stage (g, accs)) as [st1 [e|u]] eqn:E; [discriminate|].
  injection H as <-.
  unfold advance_stage, adv_game, adv_update in E. run_keep E.
  all: apply andb_true_iff in Hc as [Hw Hf];
    apply negb_true_iff in Hw, Hf;
    (split; [intros Hs; rewrite Hs in Hw; discriminate|]);
    (split; [intros Hs; rewrite Hs in Hf; discriminate|]).
  - split; [reflexivity|]. intros Hn. apply Z.eqb_eq in Hc0. contradiction.
  - split; [intros Hn; apply Z.eqb_neq in Hc0; contradiction|].
    intros _. cbv zeta. cbn [fst]. simpl_rec_goal.
    do 10 (split; [reflexivity|]).
    intros H8.
    match goal with Hk : scan_active _ _ _ _ = _ |- _ =>
      apply scan_active_full in Hk end.
    + unfold seat_active in *. simpl_rec_goal.
      let T := type of Hk in let T' := simpl_rec_t T in change T' in Hk.
      exact Hk.
    + simpl_rec_goal. apply Z.eqb_neq in Hc2. lia.
    + simpl_rec_goal. apply Z.eqb_neq in Hc2.
      apply Z.mod_pos_bound. lia.
Qed.


(** X4: if [community_revealed] shows exactly the cards of the current
    stage ([Z.ones (community_cards_to_reveal stage)]) and more than one
    player remains, then after a successful [advance_stage] it shows exactly
    the cards of the new stage, except on the step River -> Showdown, where
    all five stay revealed. *)
Theorem advance_stage_reveals_community (g : PokerGame) (accs : list (list Z))
    (st : AdvState) :
  tx advance_stage (g, accs) = inr st ->
  Game.players_remaining g <> 1 ->
  Game.community_revealed g = Z.ones (community_cards_to_reveal (Game.stage g)) ->
  Game.community_revealed (fst st) =
    Z.ones (community_cards_to_reveal (Game.stage (fst st))) \/
  (Game.stage g = River /\ Game.stage (fst st) = Showdown /\
   Game.community_revealed (fst st) = Z.ones 5).
Proof.
  intros H Hpr Hcr. unfold tx in H.
  destruct (advance_stage (g, accs)) as [st1 [e|u]] eqn:E; [discriminate|].
  injection H as <-.
  unfold advance_stage, adv_game, adv_update in E. run E.
  all: try (match goal with Hc : (_ =? 1) = true |- _ =>
                apply Z.eqb_eq in Hc; contradiction end).
  all: cbn [fst]; simpl_rec_goal; rewrite Hcr.
  all: destruct (Game.stage a1); cbn in Heqo; try discriminate; injection Heqo as <-;
      first [left; reflexivity | right; repeat split; reflexivity].
Qed.

(** X5: for card indices below 16, [mark_card_offset i] sets exactly bit
    [i] of [cards_offset_mask]: afterwards [is_card_offset j] reads
    [(i =? j) || is_card_offset j] of the old mask. Both functions panic
    (shift overflow of the u16 mask) on an index of 16 or more. *)
Theorem mark_card_offset_then_is_card_offset {S} (g : PokerGame) (i j : Z) (s : S) :
  0 <= i < 16 -> 0 <= j < 16 ->
  exists m b,
    mark_card_offset g i s = (s, inr m) /\
    is_card_offset g j s = (s, inr b) /\
    is_card_offset (Game.set_cards_offset_mask m g) j s = (s, inr ((i =? j) || b)) /\
    (forall n, 16 <= n ->
       mark_card_offset g n s = (s, inl Panic) /\ is_card_offset g n s = (s, inl Panic)).
Proof.
  intros Hi Hj.
  eexists _, _. split; [apply mark_card_offset_spec; lia|].
  split; [apply is_card_offset_spec; lia|].
  split.
  - rewrite is_card_offset_spec by lia. cbn [Game.cards_offset_mask Game.set_cards_offset_mask].
    rewrite testbit_lor_pow2 by lia. now rewrite orb_comm.
  - intros n Hn. unfold mark_card_offset, is_card_offset, checked_shl, checked_shr, bind.
    replace (n <? 16) with false by (symmetry; apply Z.ltb_ge; lia). split; reflexivity.
Qed.

Lemma offset_cards_frame add off n : forall i w w',
  0 <= i -> i + Z.of_nat n <= 16 ->
  offset_cards add off i n w = (w', inr tt) ->
  w_game_key w' = w_game_key w /\ w_seats w' = w_seats w /\
  length (Game.card_pool (w_game w')) = length (Game.card_pool (w_game w)) /\
  (forall j : nat, (Z.of_nat j < i \/ i + Z.of_nat n <= Z.of_nat j) ->
     Game.card_pool (w_game w') !! j = Game.card_pool (w_game w) !! j) /\
  (forall j, 0 <= j -> (j < i \/ i + Z.of_nat n <= j) ->
     Z.testbit (Game.cards_offset_mask (w_game w')) j =
     Z.testbit (Game.cards_offset_mask (w_game w)) j).
Proof.
  induction n as [|n IH]; intros i w w' Hi Hn H.
  - cbn in H. injection H as Hw. subst w'. auto.
  - rewrite offset_cards_S in H. cbn [bind game_of] in H. unfold bind at 1 in H.
    rewrite is_card_offset_spec in H by lia.
    destruct (Z.testbit (Game.cards_offset_mask (w_game w)) i) eqn:Hbit.
    + apply IH in H; [|lia|lia]. destruct H as (Hk & Hs & Hl & Hp & Hm).
      repeat split; auto.
      * intros j Hj. apply Hp. lia.
      * intros j Hj0 Hj. apply Hm; lia.
    + crunch H; try discriminate.
      match goal with E : mark_card_offset _ _ _ = _ |- _ =>
        rewrite mark_card_offset_spec in E by lia; injection E as <- <- end.
      apply IH in H; [|lia|lia]. destruct H as (Hk & Hs & Hl & Hp & Hm).
      cbn in Hk, Hs, Hl, Hp, Hm.
      repeat split; auto.
      * rewrite Hl. apply length_insert.
      * intros j Hj. rewrite Hp by lia. apply list_lookup_insert_ne.
        intros Heq. subst j. rewrite Z2Nat.id in Hj by lia. lia.
      * intros j Hj0 Hj. rewrite Hm by lia. rewrite testbit_lor_pow2 by lia.
        replace (i =? j) with false by (symmetry; apply Z.eqb_neq; lia).
        apply orb_false_r.
Qed.

(** X6: a successful [apply_offset_batch k] (k in 0..2) touches only pool
    slots [5k..5k+4] and offset bits [5k..5k+4], sets all five of those
    bits, marks [cards_submitted], keeps the game key, the seats, the stage
    and the pool length, sets [offset_applied] exactly when k = 2 and the
    mask is 0x7FFF, and sets [offset_batch] to 255 if so, to [k + 1]
    otherwise. *)
Theorem apply_offset_batch_frame (e_rand : option Z) (add : Z -> Z -> option Z)
    (k : Z) (w w' : World) :
  0 <= k <= 2 ->
  tx (apply_offset_batch e_rand add k) w = inr w' ->
  let g := w_game w in let g' := w_game w' in
  w_game_key w' = w_game_key w /\ w_seats w' = w_seats w /\
  Game.stage g' = Game.stage g /\ Game.cards_submitted g' = true /\
  length (Game.card_pool g') = length (Game.card_pool g) /\
  (forall j : nat, (Z.of_nat j < k * 5 \/ k * 5 + 5 <= Z.of_nat j) ->
     Game.card_pool g' !! j = Game.card_pool g !! j) /\
  (forall j, 0 <= j -> (j < k * 5 \/ k * 5 + 5 <= j) ->
     Z.testbit (Game.cards_offset_mask g') j = Z.testbit (Game.cards_offset_mask g) j) /\
  (forall j, k * 5 <= j < k * 5 + 5 -> Z.testbit (Game.cards_offset_mask g') j = true) /\
  Game.offset_applied g' = (k =? 2) && (Game.cards_offset_mask g' =? 32767) /\
  Game.offset_batch g' = (if Game.offset_applied g' then 255 else k + 1).
Proof.
  intros Hk H. unfold tx in H.
  destruct (apply_offset_batch e_rand add k w) as [w1 [e|u]] eqn:E; [discriminate|].
  injection H as <-. destruct u.
  assert (Hk' : k = 0 \/ k = 1 \/ k = 2) by lia.
  destruct Hk' as [-> | [-> | ->]];
  unfold apply_offset_batch in E; crunch E; try discriminate;
  repeat match goal with u : unit |- _ => destruct u end;
  match goal with
  | Hl : offset_cards _ _ _ _ _ = _ |- _ =>
      pose proof Hl as Hl2;
      apply offset_cards_frame in Hl; [|unfold BATCH_SIZE; simpl; lia ..];
      apply offset_cards_ok in Hl2; [|unfold BATCH_SIZE; simpl; lia ..];
      destruct Hl as (Hkey & Hs & Hlen & Hp & Hm);
      destruct Hl2 as ((p & m & Hf) & _ & Hr)
  end;
  injection E as <-; subst; cbn in *;
  repeat match goal with H : negb _ = true |- _ => apply negb_true_iff in H end;
  repeat match goal with H : GameStage_eqb _ _ = true |- _ => apply GameStage_eqb_eq in H end.
  all: unfold BATCH_SIZE, all_cards_offset in *; cbn -[Z.testbit] in *.
  all: repeat split; auto;
    try (intros j Hj; apply Hp; lia);
    try (intros j Hj0 Hj; apply Hm; lia);
    try (intros j Hj; apply Hr; lia).
  all: match goal with H : Game.offset_applied _ = false |- _ => rewrite H end;
    first [reflexivity | symmetry; assumption].
Qed.

Lemma store_cards_S ing cards it start i n :
  store_cards ing cards it start i (Datatypes.S n) =
    (ct <-- (match cards !! Z.to_nat i with
             | Some c => ret c | None => throw Panic end) ;;
     handle <-- cpi (ing ct it) ;;
     g <-- game_of ;;
     pool <-- set_index (Game.card_pool g) (start + i) handle ;;
     update_game (Game.set_card_pool pool) ;;;
     store_cards ing cards it start (i + 1) n).
Proof. reflexivity. Qed.

Lemma set_card_pool_twice (g : PokerGame) p1 p2 :
  Game.set_card_pool p2 (Game.set_card_pool p1 g) = Game.set_card_pool p2 g.
Proof. destruct g; reflexivity. Qed.

Lemma store_cards_ok ing cards it start n : forall i w w',
  0 <= i -> 0 <= start ->
  store_cards ing cards it start i n w = (w', inr tt) ->
  exists p, w' = mkWorld (w_game_key w) (Game.set_card_pool p (w_game w)) (w_seats w) /\
    length p = length (Game.card_pool (w_game w)) /\
    (forall j : nat, (Z.of_nat j < start + i \/ start + i + Z.of_nat n <= Z.of_nat j) ->
       p !! j = Game.card_pool (w_game w) !! j) /\
    (forall t, i <= t < i + Z.of_nat n -> exists c h,
       cards !! Z.to_nat t = Some c /\ ing c it = Some h /\
       p !! Z.to_nat (start + t) = Some h).
Proof.
  induction n as [|n IH]; intros i w w' Hi Hs H.
  - cbn in H. injection H as <-. exists (Game.card_pool (w_game w)).
    split; [destruct w as [k [] s]; reflexivity|].
    repeat split; auto. intros t Ht. lia.
  - rewrite store_cards_S in H. crunch H; try discriminate.
    apply IH in H; [|lia|lia]. destruct H as (p & -> & Hl & Hp & Hh).
    cbn in Hl, Hp, Hh |- *.
    apply andb_true_iff in Heqb as [Hb0 Hb1].
    apply Z.leb_le in Hb0. apply Z.ltb_lt in Hb1.
    exists p. split; [now rewrite set_card_pool_twice|].
    split; [now rewrite Hl, length_insert|].
    split.
    + intros j Hj. rewrite Hp by lia. apply list_lookup_insert_ne.
      intros Heq. subst j. rewrite Z2Nat.id in Hj by lia. lia.
    + intros t Ht. destruct (Z.eq_dec t i) as [->|Hne].
      * exists l, z. split; [assumption|]. split; [assumption|].
        rewrite Hp by (rewrite Z2Nat.id by lia; lia).
        apply list_lookup_insert_eq. lia.
      * apply Hh. lia.
Qed.

Lemma shl1_small (bits b : Z) :
  0 <= b < bits -> Z.land (Z.shiftl 1 b) (Z.ones bits) = 2 ^ b.
Proof.
  intros Hb. rewrite Z.land_ones by lia. rewrite Z.shiftl_1_l.
  apply Z.mod_small. split; [apply Z.pow_nonneg; lia | apply Z.pow_lt_mono_r; lia].
Qed.

(** X7: a successful [submit_cards] for batch [b] happens only in the
    Waiting stage, with [b < 3] and bit [b] of the submission mask unset.
    It stores the handles of the five ingested ciphertexts in pool slots
    [5b..5b+4] and leaves the other slots, the seats, the key and the stage
    alone. When the new mask is 0b111 it marks [cards_submitted] and resets
    the mask to 0; otherwise it stores the new mask. *)
Theorem submit_cards_stores_batch (ing : list Z -> Z -> option Z) (b : Z)
    (c0 c1 c2 c3 c4 : list Z) (it : Z) (w w' : World) :
  0 <= b ->
  tx (submit_cards ing b c0 c1 c2 c3 c4 it) w = inr w' ->
  let g := w_game w in let g' := w_game w' in
  let mask := Z.lor (Game.community_revealed g) (2 ^ b) in
  Game.stage g = Waiting /\ b < 3 /\ Z.testbit (Game.community_revealed g) b = false /\
  w_game_key w' = w_game_key w /\ w_seats w' = w_seats w /\
  Game.stage g' = Waiting /\
  length (Game.card_pool g') = length (Game.card_pool g) /\
  (forall j : nat, (Z.of_nat j < b * 5 \/ b * 5 + 5 <= Z.of_nat j) ->
     Game.card_pool g' !! j = Game.card_pool g !! j) /\
  (forall t, 0 <= t < 5 -> exists c h,
     [c0; c1; c2; c3; c4] !! Z.to_nat t = Some c /\ ing c it = Some h /\
     Game.card_pool g' !! Z.to_nat (b * 5 + t) = Some h) /\
  (mask = 7 -> Game.cards_submitted g' = true /\ Game.community_revealed g' = 0) /\
  (mask <> 7 -> Game.cards_submitted g' = Game.cards_submitted g /\
                Game.community_revealed g' = mask).
Proof.
  intros Hb H. unfold tx in H.
  destruct (submit_cards ing b c0 c1 c2 c3 c4 it w) as [w1 [e|u]] eqn:E; [discriminate|].
  injection H as <-. destruct u.
  unfold submit_cards in E. crunch E; try discriminate.
  all: destruct u; injection E as <-.
  all: apply Z.ltb_lt in Heqb1; apply Z.ltb_lt in Heqb2;
    apply GameStage_eqb_eq in Heqb0; apply Z.eqb_eq in Heqb3.
  all: rewrite shl1_small in * by lia.
  all: unfold SUBMIT_BATCH_SIZE in Heqp;
    apply store_cards_ok in Heqp; [|lia|lia];
    destruct Heqp as (p & -> & Hl & Hp & Hh).
  all: cbn in *.
  all: assert (Htb : Z.testbit (Game.community_revealed (w_game w)) b = false) by
    (rewrite <- (andb_true_r (Z.testbit _ b)), <- (Z.pow2_bits_true b) by lia;
     rewrite <- Z.land_spec, Heqb3; apply Z.testbit_0_l).
  all: repeat split; auto; try (intros j Hj; apply Hp; lia).
  all: exfalso; first [apply Z.eqb_eq in Heqb4 | apply Z.eqb_neq in Heqb4];
    match goal with H : _ <> 7 |- _ => contradiction end.
Qed.

(** X8: a successful [deal_cards] for seat [s] requires that seat [s] has
    no account yet, cards submitted and offset applied, the Waiting stage,
    [s < player_count] and a buy-in within the table's range. It creates
    seat [s] with the given player, the buy-in as chips, zero bets and
    cleared flags, changes no other seat, counts one more dealt seat (never
    more than [player_count]), moves to PreFlop exactly when all seats are
    dealt, and any later [deal_cards] for seat [s] fails with
    AccountError. *)
Theorem deal_cards_creates_seat (allow : Z -> option unit) (n : nat) (table : PokerTable)
    (player bump s buy_in : Z) (w w' : World) :
  tx (deal_cards allow n table player bump s buy_in) w = inr w' ->
  let g := w_game w in let g' := w_game w' in
  w_seats w !! s = None /\
  Game.cards_submitted g = true /\ Game.offset_applied g = true /\
  Game.stage g = Waiting /\ s < Game.player_count g /\
  buy_in_min table <= buy_in <= buy_in_max table /\
  (exists st, w_seats w' !! s = Some st /\
     Seat.game st = w_game_key w /\ Seat.player st = player /\
     Seat.seat_index st = s /\ Seat.chips st = buy_in /\
     Seat.current_bet st = 0 /\ Seat.total_bet st = 0 /\
     Seat.is_folded st = false /\ Seat.is_all_in st = false /\
     Seat.has_acted st = false) /\
  (forall j, j <> s -> w_seats w' !! j = w_seats w !! j) /\
  w_game_key w' = w_game_key w /\
  Game.cards_dealt_count g' = Game.cards_dealt_count g + 1 /\
  Game.cards_dealt_count g' <= Game.player_count g' /\
  Game.player_count g' = Game.player_count g /\
  Game.stage g' = (if Game.cards_dealt_count g' =? Game.player_count g'
                   then PreFlop else Waiting) /\
  (forall allow2 n2 table2 player2 bump2 buy_in2,
     tx (deal_cards allow2 n2 table2 player2 bump2 s buy_in2) w' = inl AccountError).
Proof.
  intros H. unfold tx in H.
  destruct (deal_cards allow n table player bump s buy_in w) as [w1 [e|u]] eqn:E;
    [discriminate|].
  injection H as <-.
  unfold deal_cards in E. crunch E; try discriminate.
  all: injection E as <-; cbn in *.
  all: apply GameStage_eqb_eq in Heqb1; apply Z.ltb_lt in Heqb2, Heqb4;
    apply andb_true_iff in Heqb3 as [Hb1 Hb2]; apply Z.leb_le in Hb1, Hb2.
  all: repeat split; auto; try lia.
  all: try (eexists; split; [apply lookup_insert_eq | repeat split; reflexivity]).
  all: try (intros j Hj; apply lookup_insert_ne; congruence).
  all: try (match goal with H : (_ =? _) = _ |- _ => rewrite H; try rewrite Heqb1; reflexivity end).
  all: try (intros; unfold tx, deal_cards, bind at 1 2; cbn [get w_seats];
            rewrite lookup_insert_eq; reflexivity).
Qed.

(** X9: [join_table] succeeds exactly when the buy-in is within the
    table's range, the table is not full, no game is running and the
    transfer succeeds; the only effect is one more player. *)
Theorem join_table_succeeds_iff (transfer : Z -> option unit) (buy_in : Z)
    (t t' : Table.PokerTable) :
  tx (JoinTable.handler transfer buy_in) t = inr t' <->
  Table.buy_in_min t <= buy_in <= Table.buy_in_max t /\
  Table.player_count t < Table.max_players t /\
  Table.current_game t = None /\ transfer buy_in = Some tt /\
  t' = Table.set_player_count (Table.player_count t + 1) t.
Proof.
  unfold tx, JoinTable.handler, bind, get, put, require, cpi, ret, throw.
  destruct (Table.buy_in_min t <=? buy_in) eqn:H1;
  destruct (buy_in <=? Table.buy_in_max t) eqn:H2;
  destruct (Table.player_count t <? Table.max_players t) eqn:H3;
  destruct (Table.current_game t) eqn:H4;
  destruct (transfer buy_in) as [[]|] eqn:H5; cbn;
  rewrite ?Z.leb_le, ?Z.leb_gt, ?Z.ltb_lt, ?Z.ltb_ge in *;
  split; intros H; try discriminate; try (destruct H as (? & ? & ? & ? & ?); try discriminate; lia).
  - injection H as <-. repeat split; auto; lia.
  - destruct H as (_ & _ & _ & _ & ->). reflexivity.
Qed.

Lemma join_table_ok (transfer : Z -> option unit) (buy_in : Z) (t t' : Table.PokerTable) :
  tx (JoinTable.handler transfer buy_in) t = inr t' ->
  Table.buy_in_min t <= buy_in <= Table.buy_in_max t /\
  Table.player_count t < Table.max_players t /\
  Table.current_game t = None /\ transfer buy_in = Some tt /\
  t' = Table.set_player_count (Table.player_count t + 1) t.
Proof.
  unfold tx, JoinTable.handler, bind, get, put, require, cpi, ret, throw.
  destruct (Table.buy_in_min t <=? buy_in) eqn:H1;
  destruct (buy_in <=? Table.buy_in_max t) eqn:H2;
  destruct (Table.player_count t <? Table.max_players t) eqn:H3;
  destruct (Table.current_game t) eqn:H4;
  destruct (transfer buy_in) as [[]|] eqn:H5; cbn; intros H; try discriminate.
  injection H as <-. rewrite Z.leb_le in H1, H2. rewrite Z.ltb_lt in H3.
  repeat split; auto; lia.
Qed.

(** X10: on a table that is not overfull, any run of successful joins adds
    one player per join and leaves the table not overfull; [max_players],
    [admin] and [current_game] stay as they were. *)
Theorem join_table_never_overfills (transfer : Z -> option unit) (bs : list Z) :
  forall t t' : Table.PokerTable,
  Table.player_count t <= Table.max_players t ->
  run_txs (map (JoinTable.handler transfer) bs) t = inr t' ->
  Table.player_count t' = Table.player_count t + Z.of_nat (length bs) /\
  Table.player_count t' <= Table.max_players t' /\
  Table.max_players t' = Table.max_players t /\
  Table.admin t' = Table.admin t /\
  Table.current_game t' = Table.current_game t.
Proof.
  induction bs as [|b bs IH]; intros t t' Hle H.
  - cbn in H. injection H as <-. cbn [length Z.of_nat]. repeat split; auto; lia.
  - cbn [map run_txs] in H.
    destruct (tx (JoinTable.handler transfer b) t) as [e|t1] eqn:E; [discriminate|].
    apply join_table_ok in E as (_ & Hlt & _ & _ & ->).
    apply IH in H; [|cbn; lia]. destruct H as (Hc & Hm & Hmx & Ha & Hg).
    cbn in Hc, Hm, Hmx, Ha, Hg. rewrite length_cons, Nat2Z.inj_succ.
    repeat split; auto; lia.
Qed.

Lemma start_game_ok (minp admin tk gk bump gid : Z) (t : Table.PokerTable)
    (g0 : option PokerGame) (st' : StartGame.StartState) :
  tx (StartGame.handler minp admin tk gk bump gid) (t, g0) = inr st' ->
  g0 = None /\ admin = Table.admin t /\ Table.current_game t = None /\
  minp <= Table.player_count t /\
  st' = (Table.set_current_game (Some gk) t,
         Some (start_game tk gid (Table.player_count t) bump)).
Proof.
  unfold tx, StartGame.handler, bind, get, put, require, ret, throw. cbn [fst snd].
  destruct (Table.admin t =? admin) eqn:H1; [|discriminate].
  destruct g0; [discriminate|].
  rewrite Z.eqb_sym, H1.
  destruct (Table.current_game t) eqn:H4; [discriminate|].
  destruct (minp <=? Table.player_count t) eqn:H5; cbn; intros H; [|discriminate].
  injection H as <-. apply Z.eqb_eq in H1. apply Z.leb_le in H5.
  repeat split; auto.
Qed.

(** X11: [start_game] succeeds only for the admin, with no game running,
    at least [min_players] players and a game account not yet created; it
    records the new game on the table and creates it with [start_game].
    Afterwards every [join_table] and every [start_game] on that table
    fails. *)
Theorem start_game_locks_table (minp admin tk gk bump gid : Z) (t : Table.PokerTable)
    (g0 : option PokerGame) (st' : StartGame.StartState) :
  tx (StartGame.handler minp admin tk gk bump gid) (t, g0) = inr st' ->
  g0 = None /\ admin = Table.admin t /\ Table.current_game t = None /\
  minp <= Table.player_count t /\
  st' = (Table.set_current_game (Some gk) t,
         Some (start_game tk gid (Table.player_count t) bump)) /\
  (forall transfer b, exists e, tx (JoinTable.handler transfer b) (fst st') = inl e) /\
  (forall minp2 admin2 tk2 gk2 bump2 gid2 g2, exists e,
     tx (StartGame.handler minp2 admin2 tk2 gk2 bump2 gid2) (fst st', g2) = inl e).
Proof.
  intros H. apply start_game_ok in H as (-> & -> & Hc & Hm & ->).
  repeat split; auto.
  - intros transfer b.
    destruct (tx (JoinTable.handler transfer b) _) as [e|t2] eqn:E; [eauto|].
    apply join_table_ok in E as (_ & _ & Hg & _). discriminate.
  - intros minp2 admin2 tk2 gk2 bump2 gid2 g2.
    destruct (tx (StartGame.handler minp2 admin2 tk2 gk2 bump2 gid2) _) as [e|t2] eqn:E;
      [eauto|].
    apply start_game_ok in E as (_ & _ & Hg & _). discriminate.
Qed.

Lemma count_active_counts {S} (g : PokerGame) (n : nat) : forall (i : nat) (c : Z) (s : S),
  (i + n <= 8)%nat -> 0 <= c -> c + Z.of_nat n < 256 ->
  count_active g n (Z.of_nat i) c s =
    (s, inr (c + Z.of_nat (length (List.filter (fun j => seat_active g (Z.of_nat j))
                                                (seq i n))))).
Proof.
  induction n as [|n IH]; intros i c s Hn Hc Hcn.
  - cbn. now rewrite Z.add_0_r.
  - rewrite count_active_S. unfold bind at 1.
    rewrite is_active_spec by lia. cbn [seq List.filter].
    replace (Z.of_nat i + 1) with (Z.of_nat (Datatypes.S i)) by lia.
    destruct (seat_active g (Z.of_nat i)).
    + unfold checked_add, bind. replace (c + 1 <? 2 ^ 8) with true
        by (symmetry; apply Z.ltb_lt; lia).
      cbn [ret]. rewrite IH by lia. cbn [length]. f_equal. f_equal. lia.
    + unfold bind, ret. rewrite IH by lia. reflexivity.
Qed.

Lemma count_active_panics {S} (g : PokerGame) (n : nat) : forall (i c : Z) (s : S),
  0 <= i <= 8 -> 8 < i + Z.of_nat n -> 0 <= c -> c + 8 < 256 - (8 - i) ->
  count_active g n i c s = (s, inl Panic).
Proof.
  induction n as [|n IH]; intros i c s Hi Hn Hc Hcn; [lia|].
  rewrite count_active_S.
  destruct (Z.eq_dec i 8) as [->|Hne].
  - reflexivity.
  - unfold bind at 1. rewrite is_active_spec by lia.
    destruct (seat_active g i).
    + unfold checked_add, bind. replace (c + 1 <? 2 ^ 8) with true
        by (symmetry; apply Z.ltb_lt; lia).
      cbn [ret]. apply IH; lia.
    + unfold bind, ret. apply IH; lia.
Qed.

(** X12: on a table of at most 8 seats, [active_player_count] returns the
    number of seats [0..player_count) that are neither folded nor all in;
    with more than 8 seats it panics (shift overflow of the u8 masks). *)
Theorem active_player_count_counts {S} (g : PokerGame) (s : S) :
  (0 <= Game.player_count g <= 8 ->
   active_player_count g s =
     (s, inr (Z.of_nat (length (active_seats g (Z.to_nat (Game.player_count g))))))) /\
  (8 < Game.player_count g -> active_player_count g s = (s, inl Panic)).
Proof.
  split; intros Hpc; unfold active_player_count.
  - change 0 with (Z.of_nat 0) at 1. rewrite count_active_counts by lia.
    reflexivity.
  - apply count_active_panics; lia.
Qed.

Lemma post_blinds_unposted (table : PokerTable) (sb bb : Z) (w w' : World) :
  tx (post_blinds table sb bb) w = inr w' -> Game.blinds_posted (w_game w) = 0.
Proof.
  intros H. unfold tx in H.
  destruct (post_blinds table sb bb w) as [w1 [e|u]] eqn:E; [discriminate|].
  unfold post_blinds in E. run E.
Qed.

(** X13: a successful [post_blinds] with distinct blind seats moves
    [min(small_blind, chips)] from the small-blind seat and
    [min(2 * small_blind, chips)] from the big-blind seat into the pot, makes
    those amounts the seats' current and total bets, sets the game's
    [current_bet] to the big-blind amount, changes no other seat, and marks
    the blinds as posted, so that every later [post_blinds] fails. *)
Theorem post_blinds_moves_blinds (table : PokerTable) (sb bb : Z) (w w' : World)
    (s1 s2 : PlayerSeat) :
  sb <> bb -> 0 <= Game.player_count (w_game w) ->
  w_seats w !! sb = Some s1 -> w_seats w !! bb = Some s2 ->
  tx (post_blinds table sb bb) w = inr w' ->
  let g := w_game w in let g' := w_game w' in
  let sb_amount := Z.min (small_blind table) (Seat.chips s1) in
  let bb_amount := Z.min (small_blind table * 2) (Seat.chips s2) in
  exists s1' s2', w_seats w' !! sb = Some s1' /\ w_seats w' !! bb = Some s2' /\
    Seat.chips s1' = Seat.chips s1 - sb_amount /\
    Seat.chips s2' = Seat.chips s2 - bb_amount /\
    Seat.current_bet s1' = sb_amount /\ Seat.total_bet s1' = sb_amount /\
    Seat.current_bet s2' = bb_amount /\ Seat.total_bet s2' = bb_amount /\
    Game.pot g' = Game.pot g + sb_amount + bb_amount /\
    Game.current_bet g' = bb_amount /\
    (forall j, j <> sb -> j <> bb -> w_seats w' !! j = w_seats w !! j) /\
    Game.blinds_posted g' <> 0 /\
    (forall table2 sb2 bb2, exists e, tx (post_blinds table2 sb2 bb2) w' = inl e).
Proof.
  intros Hne Hpc H1 H2 H. unfold tx in H.
  destruct (post_blinds table sb bb w) as [w1 [e|u]] eqn:E; [discriminate|].
  injection H as <-.
  unfold post_blinds in E. run E.
  cbv zeta.
  match goal with |- context[Game.blinds_posted (w_game (mkWorld ?a ?b ?c))] =>
    assert (Hbp : Game.blinds_posted (w_game (mkWorld a b c)) <> 0) end.
  { simpl_rec_goal. apply Z.ltb_lt in Hc15. apply Z.eqb_eq in Hc6.
    apply Z.eqb_neq in Hc17.
    pose proof (Z.mod_pos_bound (Game.dealer_position (w_game s1) + 2)
                  (Game.player_count (w_game s1)) ltac:(lia)).
    rewrite (shl1_small 8 (Seat.seat_index a1)) by lia.
    intros Hz. apply Z.lor_eq_0_iff in Hz as [_ Hz].
    pose proof (Z.pow_pos_nonneg 2 (Seat.seat_index a1)). lia. }
  eexists _, _.
  split; [cbn [w_seats]; rewrite lookup_insert_ne by congruence;
          rewrite lookup_insert_eq; reflexivity|].
  split; [cbn [w_seats]; rewrite lookup_insert_eq; reflexivity|].
  split; [|split; [|split; [|split; [|split; [|split; [|split; [|split; [|split; [|split]]]]]]]]];
    try (simpl_rec_goal; lia).
  - intros j Hj1 Hj2. cbn [w_seats]. rewrite !lookup_insert_ne by congruence. reflexivity.
  - exact Hbp.
  - intros table2 sb2 bb2.
    destruct (tx (post_blinds table2 sb2 bb2) _) as [e|w2] eqn:E2; [eauto|].
    apply post_blinds_unposted in E2. contradiction.
Qed.

(** X15: a successful [player_action] never unfolds a seat or takes back
    an all-in, never raises [players_remaining], keeps [player_count], the
    card pool and the game key, keeps the stage or moves it to Showdown, and
    changes no seat other than the acting one. *)
Theorem player_action_monotone (k player a r : Z) (w w' : World) :
  tx (player_action k player a r) w = inr w' ->
  let g := w_game w in let g' := w_game w' in
  (forall j, Z.testbit (Game.folded_mask g) j = true ->
     Z.testbit (Game.folded_mask g') j = true) /\
  (forall j, Z.testbit (Game.all_in_mask g) j = true ->
     Z.testbit (Game.all_in_mask g') j = true) /\
  Game.players_remaining g' <= Game.players_remaining g /\
  Game.player_count g' = Game.player_count g /\
  Game.card_pool g' = Game.card_pool g /\
  (Game.stage g' = Game.stage g \/ Game.stage g' = Showdown) /\
  w_game_key w' = w_game_key w /\
  (forall j, j <> k -> w_seats w' !! j = w_seats w !! j).
Proof.
  intros H. unfold tx in H.
  destruct (player_action k player a r w) as [w1 [e|u]] eqn:E; [discriminate|].
  injection H as <-.
  unfold player_action, decode_action, is_folded, is_all_in,
    do_fold, do_check, do_call, do_raise, do_all_in in E.
  run E.
  all: match goal with H : advance_action _ = _ |- _ =>
         apply advance_action_frame in H; destruct H as [-> | [nxt ->]] end.
  all: cbv zeta; simpl_rec_goal.
  all: repeat split; auto; try lia.
  all: try (intros j Hj; rewrite Z.lor_spec, Hj; reflexivity).
  all: try (intros j Hj; rewrite !lookup_insert_ne by congruence; reflexivity).
Qed.

(** X14: for a seat that may act, Check fails with CannotCheck when the
    seat's bet is below the game's current bet; otherwise (with the u8
    counter not overflowing and 1..8 seats) it succeeds, only sets the
    seat's [has_acted], keeps the pot and the current bet and counts one
    more player acted. *)
Theorem player_action_check (k player r : Z) (w : World) (st : PlayerSeat) :
  can_act w k player st ->
  let g := w_game w in
  (Seat.current_bet st < Game.current_bet g ->
     tx (player_action k player 1 r) w = inl (Poker CannotCheck)) /\
  (Game.current_bet g <= Seat.current_bet st ->
   Game.players_acted g + 1 < 2 ^ 8 -> 0 < Game.player_count g <= 8 ->
   exists w',
     tx (player_action k player 1 r) w = inr w' /\
     w_seats w' !! k = Some (Seat.set_has_acted true st) /\
     Game.pot (w_game w') = Game.pot g /\
     Game.current_bet (w_game w') = Game.current_bet g /\
     Game.players_acted (w_game w') = Game.players_acted g + 1).
Proof.
  intros Hca. cbv zeta.
  destruct (can_act_facts _ _ _ _ Hca) as (Hk & Hg & Hp & Ha & Hi & Hf & Hai & Hb).
  split.
  - intros Hr.
    unfold tx; destruct (player_action k player 1 r w) as [w1 [e|u]] eqn:E;
    unfold player_action, decode_action, is_folded, is_all_in, do_check in E;
    run E; unfold saturating_sub in *; first [reflexivity | congruence | lia].
  - intros Hr Hc1 Hpc.
    unfold tx; destruct (player_action k player 1 r w) as [w1 [e|u]] eqn:E;
    unfold player_action, decode_action, is_folded, is_all_in, do_check in E;
    run E.
    all: unfold saturating_sub in *; try congruence; try lia.
    all: destruct Hca as (_ & _ & _ & Ha' & Hi' & _);
    match goal with
    | H : advance_action ?W = _ |- _ =>
        destruct (advance_action_ok W) as [nxt Hn];
        [simpl_rec_goal; lia | simpl_rec_goal; lia |];
        rewrite Hn in H; inversion H; subst
    end.
    all: eexists; split; [reflexivity|];
    split; [apply lookup_insert_eq|];
    simpl_rec_goal; repeat split; lia.
Qed.

Ltac finish_action Hca :=
  destruct Hca as (_ & _ & _ & Ha' & Hi' & _);
  match goal with
  | H : advance_action ?W = _ |- _ =>
      destruct (advance_action_ok W) as [nxt Hn];
      [simpl_rec_goal; lia | simpl_rec_goal; lia |];
      rewrite Hn in H; inversion H; subst
  end.

(** X16: for a seat that may act, Call fails with InsufficientChips when
    the seat has fewer chips than the amount to call; otherwise (when no u64
    or u8 counter overflows and there are 1..8 seats) it moves exactly the
    amount to call from the seat to the pot, brings the seat's current bet
    up to the game's, sets [has_acted], keeps the game's current bet and
    counts one more player acted. *)
Theorem player_action_call (k player r : Z) (w : World) (st : PlayerSeat) :
  can_act w k player st ->
  let g := w_game w in
  let to_call := saturating_sub (Game.current_bet g) (Seat.current_bet st) in
  (Seat.chips st < to_call ->
     tx (player_action k player 2 r) w = inl (Poker InsufficientChips)) /\
  (to_call <= Seat.chips st ->
   Seat.current_bet st + to_call < 2 ^ 64 -> Seat.total_bet st + to_call < 2 ^ 64 ->
   Game.pot g + to_call < 2 ^ 64 ->
   Game.players_acted g + 1 < 2 ^ 8 -> 0 < Game.player_count g <= 8 ->
   exists w' st',
     tx (player_action k player 2 r) w = inr w' /\
     w_seats w' !! k = Some st' /\
     Seat.chips st' = Seat.chips st - to_call /\
     Seat.current_bet st' = Z.max (Seat.current_bet st) (Game.current_bet g) /\
     Seat.total_bet st' = Seat.total_bet st + to_call /\
     Seat.has_acted st' = true /\
     Game.pot (w_game w') = Game.pot g + to_call /\
     Game.current_bet (w_game w') = Game.current_bet g /\
     Game.players_acted (w_game w') = Game.players_acted g + 1).
Proof.
  intros Hca. cbv zeta.
  destruct (can_act_facts _ _ _ _ Hca) as (Hk & Hg & Hp & Ha & Hi & Hf & Hai & Hb).
  split.
  - intros Hr.
    unfold tx; destruct (player_action k player 2 r w) as [w1 [e|u]] eqn:E;
    unfold player_action, decode_action, is_folded, is_all_in, do_call in E;
    run E; unfold saturating_sub in *; first [reflexivity | congruence | lia].
  - intros Hr Hc1 Hc2 Hc3 Hc4 Hpc.
    unfold tx; destruct (player_action k player 2 r w) as [w1 [e|u]] eqn:E;
    unfold player_action, decode_action, is_folded, is_all_in, do_call in E;
    run E.
    all: unfold saturating_sub in *; try congruence; try lia.
    all: finish_action Hca.
    all: do 2 eexists; split; [reflexivity|];
    split; [apply lookup_insert_eq|];
    simpl_rec_goal; repeat split; lia.
Qed.

(** X17: for a seat that may act (with no u64 or u8 counter overflowing
    and 1..8 seats), AllIn succeeds: it moves all the seat's chips to the
    pot and to its bets, marks the seat all in (flag and mask bit), and
    raises the game's current bet to the seat's bet if that is higher, in
    which case the seat becomes the last raiser and the acted count restarts
    at 1; otherwise one more player has acted. *)
Theorem player_action_all_in (k player r : Z) (w : World) (st : PlayerSeat) :
  can_act w k player st ->
  let g := w_game w in
  let cb' := Seat.current_bet st + Seat.chips st in
  0 <= Seat.chips st ->
  cb' < 2 ^ 64 -> Seat.total_bet st + Seat.chips st < 2 ^ 64 ->
  Game.pot g + Seat.chips st < 2 ^ 64 ->
  Game.players_acted g + 1 < 2 ^ 8 -> 0 < Game.player_count g <= 8 ->
  exists w' st',
    tx (player_action k player 4 r) w = inr w' /\
    w_seats w' !! k = Some st' /\
    Seat.chips st' = 0 /\ Seat.is_all_in st' = true /\
    Seat.current_bet st' = cb' /\
    Seat.total_bet st' = Seat.total_bet st + Seat.chips st /\
    Z.testbit (Game.all_in_mask (w_game w')) (Seat.seat_index st) = true /\
    Game.pot (w_game w') = Game.pot g + Seat.chips st /\
    Game.current_bet (w_game w') = Z.max (Game.current_bet g) cb' /\
    (Game.current_bet g < cb' ->
       Game.last_raiser (w_game w') = Seat.seat_index st /\
       Game.last_raise_amount (w_game w') = cb' - Game.current_bet g /\
       Game.players_acted (w_game w') = 1) /\
    (cb' <= Game.current_bet g ->
       Game.players_acted (w_game w') = Game.players_acted g + 1).
Proof.
  intros Hca. cbv zeta.
  destruct (can_act_facts _ _ _ _ Hca) as (Hk & Hg & Hp & Ha & Hi & Hf & Hai & Hb).
  intros Hc0 Hc1 Hc2 Hc3 Hc4 Hpc.
  unfold tx; destruct (player_action k player 4 r w) as [w1 [e|u]] eqn:E;
  unfold player_action, decode_action, is_folded, is_all_in, do_all_in in E;
  run E.
  all: try congruence; try lia.
  all: finish_action Hca.
  all: do 2 eexists; split; [reflexivity|];
    split; [apply lookup_insert_eq|];
    simpl_rec_goal.
  all: repeat match goal with H : (_ <? _) = _ |- _ =>
         first [apply Z.ltb_lt in H | apply Z.ltb_ge in H] end.
  all: rewrite shl1_small by lia; rewrite testbit_lor_pow2 by lia;
    rewrite Z.eqb_refl, orb_true_r.
  all: repeat split; intros; lia.
Qed.

Lemma length_to_le_bytes n v : length (to_le_bytes n v) = n.
Proof. revert v; induction n; intros v; cbn; auto. Qed.

Lemma length_concat_16 (l : list Z) :
  length (List.concat (List.map (to_le_bytes 16) l)) = (16 * length l)%nat.
Proof.
  induction l as [|x l IH]; [reflexivity|].
  cbn [List.map List.concat]. rewrite length_app, length_to_le_bytes, IH.
  cbn [length]. lia.
Qed.

(** X18: the space reserved for a game account, [PokerGame::LEN], holds
    the 8-byte discriminator and the Borsh encoding of any game with a
    15-card pool, exactly so when [winner_seat] is set. *)
Theorem poker_game_len_fits (g : PokerGame) :
  length (Game.card_pool g) = 15%nat ->
  (8 + length (serialize_game g) <= POKER_GAME_LEN)%nat /\
  (Game.winner_seat g <> None -> 8 + length (serialize_game g) = POKER_GAME_LEN)%nat.
Proof.
  intros Hl. unfold serialize_game, POKER_GAME_LEN.
  rewrite !length_app, !length_to_le_bytes, length_concat_16, Hl.
  destruct (Game.winner_seat g); cbn; split; intros; try lia; congruence.
Qed.

Lemma advance_stage_next_round_witness :
  let S0 := (ex_adv_game, [ex_seat_bytes]) in
  let S1 := after (tx advance_stage S0) S0 in
  tx advance_stage S0 = inr S1 /\
  next (Game.stage ex_adv_game) = Some (Game.stage (fst S1)) /\
  Game.pot (fst S1) = Game.pot ex_adv_game.
Proof.
  intros S0 S1.
  assert (H : tx advance_stage S0 = inr S1) by (vm_compute; reflexivity).
  destruct (advance_stage_next_round ex_adv_game [ex_seat_bytes] S1 H) as (_ & _ & _ & Hn).
  specialize (Hn ltac:(vm_compute; discriminate)). cbv zeta in Hn.
  destruct Hn as (Hs & _ & _ & _ & _ & Hp & _).
  split; [exact H|]. split; [exact Hs | exact Hp].
Defined.

Lemma advance_stage_reveals_community_witness :
  let S0 := (ex_flop_game, @nil (list Z)) in
  let S1 := after (tx advance_stage S0) S0 in
  tx advance_stage S0 = inr S1 /\
  (Game.community_revealed (fst S1) =
     Z.ones (community_cards_to_reveal (Game.stage (fst S1))) \/
   (Game.stage ex_flop_game = River /\ Game.stage (fst S1) = Showdown /\
    Game.community_revealed (fst S1) = Z.ones 5)).
Proof.
  intros S0 S1.
  assert (H : tx advance_stage S0 = inr S1) by (vm_compute; reflexivity).
  split; [exact H|].
  exact (advance_stage_reveals_community ex_flop_game [] S1 H
           ltac:(vm_compute; discriminate) ltac:(vm_compute; reflexivity)).
Defined.

Lemma mark_card_offset_then_is_card_offset_witness :
  exists m, mark_card_offset (start_game 100 1 3 0) 3 tt = (tt, inr m) /\
    is_card_offset (Game.set_cards_offset_mask m (start_game 100 1 3 0)) 3 tt =
      (tt, inr true).
Proof.
  destruct (mark_card_offset_then_is_card_offset (start_game 100 1 3 0) 3 3 tt
              ltac:(lia) ltac:(lia)) as (m & b & Hm & _ & Hi & _).
  exists m. split; [exact Hm | exact Hi].
Defined.

Lemma apply_offset_batch_frame_witness :
  let W1 := after (run_txs ex_commit ex_world0) ex_world0 in
  let W2 := after (tx (apply_offset_batch (Some 7) ex_add 0) W1) W1 in
  tx (apply_offset_batch (Some 7) ex_add 0) W1 = inr W2 /\
  Game.offset_batch (w_game W2) = 1.
Proof.
  intros W1 W2.
  assert (H : tx (apply_offset_batch (Some 7) ex_add 0) W1 = inr W2)
    by (vm_compute; reflexivity).
  pose proof (apply_offset_batch_frame (Some 7) ex_add 0 W1 W2 ltac:(lia) H) as T.
  cbv zeta in T. destruct T as (_ & _ & _ & _ & _ & _ & _ & _ & Ha & Hb).
  split; [exact H|]. rewrite Hb, Ha. reflexivity.
Defined.

Lemma submit_cards_stores_batch_witness :
  let W1 := after (tx (submit_cards ex_ingest 0 [1] [2] [3] [4] [5] 0) ex_world0)
              ex_world0 in
  tx (submit_cards ex_ingest 0 [1] [2] [3] [4] [5] 0) ex_world0 = inr W1 /\
  exists h, ex_ingest [1] 0 = Some h /\ Game.card_pool (w_game W1) !! 0%nat = Some h.
Proof.
  intros W1.
  assert (H : tx (submit_cards ex_ingest 0 [1] [2] [3] [4] [5] 0) ex_world0 = inr W1)
    by (vm_compute; reflexivity).
  pose proof (submit_cards_stores_batch ex_ingest 0 [1] [2] [3] [4] [5] 0 ex_world0 W1
                ltac:(lia) H) as T.
  cbv zeta in T. destruct T as (_ & _ & _ & _ & _ & _ & _ & _ & Ht & _).
  destruct (Ht 0 ltac:(lia)) as (c & h & Hc & Hh & Hp).
  cbn in Hc. injection Hc as <-.
  split; [exact H|]. exists h. split; [exact Hh | exact Hp].
Defined.

Lemma deal_cards_creates_seat_witness :
  let W1 := after (tx (deal_cards ex_allow 0 ex_table 50 0 0 100) ex_rot_world)
              ex_rot_world in
  tx (deal_cards ex_allow 0 ex_table 50 0 0 100) ex_rot_world = inr W1 /\
  tx (deal_cards ex_allow 0 ex_table 51 0 0 100) W1 = inl AccountError.
Proof.
  intros W1.
  assert (H : tx (deal_cards ex_allow 0 ex_table 50 0 0 100) ex_rot_world = inr W1)
    by (vm_compute; reflexivity).
  pose proof (deal_cards_creates_seat ex_allow 0 ex_table 50 0 0 100 ex_rot_world W1 H)
    as T.
  cbv zeta in T. destruct T as (_ & _ & _ & _ & _ & _ & _ & _ & _ & _ & _ & _ & _ & Hs).
  split; [exact H | apply Hs].
Defined.

Lemma join_table_succeeds_iff_witness :
  tx (JoinTable.handler ex_allow 100) ex_table_acct =
    inr (Table.set_player_count 2 ex_table_acct).
Proof.
  apply (proj2 (join_table_succeeds_iff ex_allow 100 ex_table_acct _)).
  unfold ex_table_acct. cbn. repeat split; try reflexivity; lia.
Defined.

Lemma join_table_never_overfills_witness :
  let T' := after (run_txs (map (JoinTable.handler ex_allow) [100; 200]) ex_table_acct)
              ex_table_acct in
  run_txs (map (JoinTable.handler ex_allow) [100; 200]) ex_table_acct = inr T' /\
  Table.player_count T' = 3 /\ Table.player_count T' <= Table.max_players T'.
Proof.
  intros T'.
  assert (H : run_txs (map (JoinTable.handler ex_allow) [100; 200]) ex_table_acct = inr T')
    by (vm_compute; reflexivity).
  destruct (join_table_never_overfills ex_allow [100; 200] ex_table_acct T'
              ltac:(vm_compute; discriminate) H) as (Hc & Hm & _).
  split; [exact H|]. split; [rewrite Hc; reflexivity | exact Hm].
Defined.

Lemma start_game_locks_table_witness :
  let S1 := after (tx (StartGame.handler 1 7 100 200 0 1) (ex_table_acct, None))
              (ex_table_acct, None) in
  tx (StartGame.handler 1 7 100 200 0 1) (ex_table_acct, None) = inr S1 /\
  exists e, tx (JoinTable.handler ex_allow 100) (fst S1) = inl e.
Proof.
  intros S1.
  assert (H : tx (StartGame.handler 1 7 100 200 0 1) (ex_table_acct, None) = inr S1)
    by (vm_compute; reflexivity).
  destruct (start_game_locks_table 1 7 100 200 0 1 ex_table_acct None S1 H)
    as (_ & _ & _ & _ & _ & Hj & _).
  split; [exact H | apply Hj].
Defined.

Lemma post_blinds_moves_blinds_witness :
  let W := after (run_txs (ex_commit ++ ex_blind ++ [generate_offset (Some 1234)]
                            ++ ex_deal_all) ex_world0) ex_world0 in
  let W' := after (tx (post_blinds ex_table 1 2) W) W in
  tx (post_blinds ex_table 1 2) W = inr W' /\
  Game.pot (w_game W') = 3 /\
  (forall table2 sb2 bb2, exists e, tx (post_blinds table2 sb2 bb2) W' = inl e).
Proof.
  intros W W'.
  assert (H : tx (post_blinds ex_table 1 2) W = inr W') by (vm_compute; reflexivity).
  destruct (w_seats W !! 1) as [s1|] eqn:E1; [|vm_compute in E1; discriminate].
  destruct (w_seats W !! 2) as [s2|] eqn:E2; [|vm_compute in E2; discriminate].
  pose proof (post_blinds_moves_blinds ex_table 1 2 W W' s1 s2 ltac:(lia)
                ltac:(vm_compute; discriminate) E1 E2 H) as T.
  cbv zeta in T. destruct T as (s1' & s2' & _ & _ & _ & _ & _ & _ & _ & _ & Hp & _ & _ & _ & Hf).
  vm_compute in E1, E2. injection E1 as <-. injection E2 as <-.
  split; [exact H|]. split; [rewrite Hp; vm_compute; reflexivity | exact Hf].
Defined.

Lemma player_action_check_witness :
  can_act ex_raise_world 0 50 ex_raise_seat /\
  tx (player_action 0 50 1 0) ex_raise_world = inl (Poker CannotCheck).
Proof.
  assert (Hc : can_act ex_raise_world 0 50 ex_raise_seat).
  { unfold can_act. repeat split; vm_compute; first [reflexivity | discriminate]. }
  split; [exact Hc|].
  pose proof (player_action_check 0 50 0 ex_raise_world ex_raise_seat Hc) as T.
  cbv zeta in T. apply (proj1 T). vm_compute. reflexivity.
Defined.

Lemma player_action_monotone_witness :
  let W' := after (tx (player_action 0 50 3 20) ex_raise_world) ex_raise_world in
  tx (player_action 0 50 3 20) ex_raise_world = inr W' /\
  Game.player_count (w_game W') = 3.
Proof.
  intros W'.
  assert (H : tx (player_action 0 50 3 20) ex_raise_world = inr W')
    by (vm_compute; reflexivity).
  pose proof (player_action_monotone 0 50 3 20 ex_raise_world W' H) as T.
  cbv zeta in T. destruct T as (_ & _ & _ & Hpc & _).
  split; [exact H | rewrite Hpc; reflexivity].
Defined.

Lemma player_action_call_witness :
  exists w' st',
    tx (player_action 0 50 2 0) ex_raise_world = inr w' /\
    w_seats w' !! 0 = Some st' /\ Seat.chips st' = 980 /\
    Game.pot (w_game w') = 20.
Proof.
  assert (Hc : can_act ex_raise_world 0 50 ex_raise_seat).
  { unfold can_act. repeat split; vm_compute; first [reflexivity | discriminate]. }
  pose proof (player_action_call 0 50 0 ex_raise_world ex_raise_seat Hc) as T.
  cbv zeta in T. destruct T as [_ T].
  destruct T as (w' & st' & A & B & C & _ & _ & _ & D & _);
    try (vm_compute; first [reflexivity | discriminate]);
    try (split; vm_compute; first [reflexivity | discriminate]).
  exists w', st'. split; [exact A|]. split; [exact B|].
  split; [rewrite C | rewrite D]; vm_compute; reflexivity.
Defined.

Lemma player_action_all_in_witness :
  exists w' st',
    tx (player_action 0 50 4 0) ex_raise_world = inr w' /\
    w_seats w' !! 0 = Some st' /\ Seat.chips st' = 0 /\
    Game.current_bet (w_game w') = 1000.
Proof.
  assert (Hc : can_act ex_raise_world 0 50 ex_raise_seat).
  { unfold can_act. repeat split; vm_compute; first [reflexivity | discriminate]. }
  pose proof (player_action_all_in 0 50 0 ex_raise_world ex_raise_seat Hc) as T.
  cbv zeta in T.
  destruct T as (w' & st' & A & B & C & _ & _ & _ & _ & _ & D & _);
    try (vm_compute; first [reflexivity | discriminate]);
    try (split; vm_compute; first [reflexivity | discriminate]).
  exists w', st'. split; [exact A|]. split; [exact B|]. split; [exact C|].
  rewrite D. vm_compute. reflexivity.
Defined.

Lemma poker_game_len_fits_witness :
  (8 + length (serialize_game (start_game 100 1 3 0)) <= POKER_GAME_LEN)%nat.
Proof.
  exact (proj1 (poker_game_len_fits (start_game 100 1 3 0) ltac:(vm_compute; reflexivity))).
Defined.
